(** * RW: the schema-driven prediction form (frontend/app/page.tsx, frontend/app/api.ts)

    A shallow embedding of the page component and of the API client it
    calls, with the JavaScript built-ins they rely on ([Number],
    [isFinite], property access on plain objects, own-property order). *)

From Stdlib Require Import ZArith NArith List String Ascii Bool Lia.
From Stdlib Require Import Floats.SpecFloat.
Import ListNotations.
Local Open Scope string_scope.
Local Open Scope list_scope.

(** ** JavaScript values *)

Module JS.

(** *** Numbers

    A Number is an IEEE 754 binary64 value: [spec_float] at precision 53
    and maximal exponent 1024. *)

Definition number : Type := spec_float.
Definition prec : Z := 53.
Definition emax : Z := 1024.

Definition NaN : number := S754_nan.

(** Global [isFinite] on a Number. *)
Definition isFinite (n : number) : bool :=
  match n with
  | S754_zero _ | S754_finite _ _ _ => true
  | S754_infinity _ | S754_nan => false
  end.

Definition isNaN (n : number) : bool :=
  match n with
  | S754_nan => true
  | _ => false
  end.

(** The Number value of the real [m * 10^e], rounded to nearest, ties to
    even; [neg] is the sign. *)
Definition of_decimal (neg : bool) (m : N) (e : Z) : number :=
  match m with
  | N0 => S754_zero neg
  | Npos p =>
      match e with
      | Zneg d =>
          let '(q, e', l) :=
            SFdiv_core_binary prec emax (Zpos p) 0 (Z.pow_pos 10 d) 0 in
          binary_round_aux prec emax neg q e' l
      | _ => binary_round prec emax neg (Z.to_pos (Zpos p * 10 ^ e)) 0
      end
  end.

(** *** Strings

    A string is a sequence of code units; the model covers the code units
    below 256. *)

Definition chars (s : string) : list ascii := list_ascii_of_string s.

(** StrWhiteSpaceChar: TAB, LF, VT, FF, CR, SP and NBSP. *)
Definition is_white (c : ascii) : bool :=
  let n := nat_of_ascii c in
  ((9 <=? n) && (n <=? 13) || (n =? 32) || (n =? 160))%nat.

Fixpoint trim_start (l : list ascii) : list ascii :=
  match l with
  | c :: l' => if is_white c then trim_start l' else l
  | [] => []
  end.

Definition trim (l : list ascii) : list ascii :=
  rev (trim_start (rev (trim_start l))).

(** The value of a digit in the given radix (2, 8, 10 or 16). *)
Definition digit_value (radix : N) (c : ascii) : option N :=
  let n := N_of_ascii c in
  let d :=
    if ((48 <=? n) && (n <=? 57))%N then Some (n - 48)%N
    else if ((97 <=? n) && (n <=? 102))%N then Some (n - 87)%N
    else if ((65 <=? n) && (n <=? 70))%N then Some (n - 55)%N
    else None in
  match d with
  | Some v => if (v <? radix)%N then Some v else None
  | None => None
  end.

(** The longest prefix of digits, and what follows it. *)
Fixpoint span_digits (radix : N) (l : list ascii) : list N * list ascii :=
  match l with
  | c :: l' =>
      match digit_value radix c with
      | Some d => let '(ds, rest) := span_digits radix l' in (d :: ds, rest)
      | None => ([], l)
      end
  | [] => ([], [])
  end.

Definition digits_value (radix : N) (ds : list N) : N :=
  fold_left (fun acc d => acc * radix + d)%N ds 0%N.

(** ExponentPart_opt at the end of a literal: the decimal exponent, or
    [None] when what is left is not an exponent part. *)
Definition exponent_part (l : list ascii) : option Z :=
  match l with
  | [] => Some 0%Z
  | c :: l1 =>
      if (Ascii.eqb c "e" || Ascii.eqb c "E")%bool then
        let '(neg, l2) :=
          match l1 with
          | s :: l2 =>
              if Ascii.eqb s "-" then (true, l2)
              else if Ascii.eqb s "+" then (false, l2)
              else (false, l1)
          | [] => (false, l1)
          end in
        match span_digits 10 l2 with
        | ((_ :: _) as ds, []) =>
            let x := Z.of_N (digits_value 10 ds) in
            Some (if neg then (- x)%Z else x)
        | _ => None
        end
      else None
  end.

(** StrUnsignedDecimalLiteral. *)
Definition unsigned_decimal (neg : bool) (l : list ascii) : number :=
  if list_eq_dec ascii_dec l (chars "Infinity") then S754_infinity neg
  else
    let '(ip, r1) := span_digits 10 l in
    let '(fp, r2) :=
      match r1 with
      | c :: r => if Ascii.eqb c "." then span_digits 10 r else ([], r1)
      | [] => ([], r1)
      end in
    match ip, fp with
    | [], [] => NaN
    | _, _ =>
        match exponent_part r2 with
        | Some x =>
            of_decimal neg (digits_value 10 (ip ++ fp))
              (x - Z.of_nat (List.length fp))
        | None => NaN
        end
    end.

(** NonDecimalIntegerLiteral: 0b, 0o and 0x literals, unsigned. *)
Definition non_decimal (l : list ascii) : option number :=
  match l with
  | z :: p :: ds =>
      if Ascii.eqb z "0" then
        let radix :=
          if (Ascii.eqb p "x" || Ascii.eqb p "X")%bool then Some 16%N
          else if (Ascii.eqb p "o" || Ascii.eqb p "O")%bool then Some 8%N
          else if (Ascii.eqb p "b" || Ascii.eqb p "B")%bool then Some 2%N
          else None in
        match radix with
        | Some r =>
            match span_digits r ds with
            | ((_ :: _) as vs, []) => Some (of_decimal false (digits_value r vs) 0)
            | _ => Some NaN
            end
        | None => None
        end
      else None
  | _ => None
  end.

(** [Number(s)] for a string [s]: StringToNumber. *)
Definition Number (s : string) : number :=
  match trim (chars s) with
  | [] => S754_zero false
  | (c :: l') as l =>
      match non_decimal l with
      | Some n => n
      | None =>
          if Ascii.eqb c "-" then unsigned_decimal true l'
          else if Ascii.eqb c "+" then unsigned_decimal false l'
          else unsigned_decimal false l
      end
  end.

(** *** Values

    [VNative k] is the built-in object that [Object.prototype] holds
    under the name [k]: a function, or [Object.prototype] itself for
    [__proto__]. *)

#[warnings="-register-all"]
Inductive value : Type :=
| VUndefined
| VNull
| VBool (b : bool)
| VNum (n : number)
| VStr (s : string)
| VArr (l : list value)
| VObj (o : list (string * value))
| VNative (k : string).

Definition ToBoolean (v : value) : bool :=
  match v with
  | VUndefined | VNull => false
  | VBool b => b
  | VNum (S754_zero _) | VNum S754_nan => false
  | VNum _ => true
  | VStr s => negb (s =? "")
  | VArr _ | VObj _ | VNative _ => true
  end.

Definition nullish (v : value) : bool :=
  match v with
  | VUndefined | VNull => true
  | _ => false
  end.

(** [a ?? b] and [a || b]. *)
Definition coalesce (a b : value) : value := if nullish a then b else a.
Definition or_else (a b : value) : value := if ToBoolean a then a else b.

(** *** Plain objects

    The own properties of an object, in creation order. *)

Section Properties.

Context {A : Type}.

Fixpoint own (k : string) (o : list (string * A)) : option A :=
  match o with
  | [] => None
  | (k', v) :: o' => if k =? k' then Some v else own k o'
  end.

Fixpoint overwrite (k : string) (v : A) (o : list (string * A))
  : list (string * A) :=
  match o with
  | [] => []
  | (k', v') :: o' =>
      if k =? k' then (k', v) :: o' else (k', v') :: overwrite k v o'
  end.

(** CreateDataProperty: an existing property keeps its place. *)
Definition CreateDataProperty (o : list (string * A)) (k : string) (v : A)
  : list (string * A) :=
  match own k o with
  | Some _ => overwrite k v o
  | None => o ++ [(k, v)]
  end.

End Properties.

(** An array index is the canonical decimal string of an integer below
    2^32 - 1. *)
Definition array_index (k : string) : option N :=
  match chars k with
  | [] => None
  | c :: l =>
      match span_digits 10 (c :: l) with
      | (ds, []) =>
          if (Ascii.eqb c "0" && negb (Nat.eqb (List.length l) 0))%bool then None
          else
            let n := digits_value 10 ds in
            if (n <? 4294967295)%N then Some n else None
      | _ => None
      end
  end.

Fixpoint insert_index (n : N) (k : string) (l : list (N * string))
  : list (N * string) :=
  match l with
  | [] => [(n, k)]
  | (m, k') :: l' =>
      if (n <? m)%N then (n, k) :: l else (m, k') :: insert_index n k l'
  end.

Fixpoint index_keys (ks : list string) : list (N * string) :=
  match ks with
  | [] => []
  | k :: ks' =>
      match array_index k with
      | Some n => insert_index n k (index_keys ks')
      | None => index_keys ks'
      end
  end.

Definition named (k : string) : bool :=
  match array_index k with
  | Some _ => false
  | None => true
  end.

(** OrdinaryOwnPropertyKeys: array indices in ascending order, then the
    other names in creation order. *)
Definition OwnPropertyKeys {A : Type} (o : list (string * A)) : list string :=
  map snd (index_keys (map fst o)) ++ filter named (map fst o).

(** The properties of [Object.prototype]. *)
Definition object_prototype_names : list string :=
  [ "constructor"; "__defineGetter__"; "__defineSetter__"; "hasOwnProperty";
    "__lookupGetter__"; "__lookupSetter__"; "isPrototypeOf";
    "propertyIsEnumerable"; "toString"; "valueOf"; "__proto__";
    "toLocaleString" ].

Definition inherited (k : string) : value :=
  if in_dec string_dec k object_prototype_names then VNative k
  else VUndefined.

(** [o[k]] for an object whose prototype is [Object.prototype]. *)
Definition Get (o : list (string * value)) (k : string) : value :=
  match own k o with
  | Some v => v
  | None => inherited k
  end.

(** An object under construction: its own properties and whether its
    prototype has been set to [null]. *)
Record object : Type := {
  null_prototype : bool;
  properties : list (string * value)
}.

(** [{}]. *)
Definition empty_object : object :=
  {| null_prototype := false; properties := [] |}.

(** [O[k] = v]: an own property is updated; [__proto__], while the
    accessor of [Object.prototype] is reachable, goes to the setter, which
    creates no property: [null] clears the prototype, a primitive is
    ignored, and so is [Object.prototype] itself, the prototype already
    (the page assigns nothing else under this name); any other name becomes
    a new own property. *)
Definition OrdinarySet (O : object) (k : string) (v : value) : object :=
  match own k (properties O) with
  | Some _ =>
      {| null_prototype := null_prototype O;
         properties := overwrite k v (properties O) |}
  | None =>
      if ((k =? "__proto__") && negb (null_prototype O))%bool then
        match v with
        | VNull => {| null_prototype := true; properties := properties O |}
        | _ => O
        end
      else
        {| null_prototype := null_prototype O;
           properties := properties O ++ [(k, v)] |}
  end.

(** [String.prototype.replaceAll] for one-character patterns. *)
Fixpoint replaceAll (s : string) (pat by_ : ascii) : string :=
  match s with
  | EmptyString => EmptyString
  | String c s' =>
      String (if Ascii.eqb c pat then by_ else c) (replaceAll s' pat by_)
  end.

End JS.

(** ** The data the page exchanges with the service *)

(** The schema served by [/schema], as the page reads it: the field names
    in order and an object with the description of each field; either
    member may be missing. *)
Record FieldSchema : Type := {
  feature_order : option (list string);
  field_meta : option (list (string * JS.value))
}.

(** An entry of the form, as the change handlers store them: [null], a
    number or a string. *)
Inductive FormValue : Type :=
| FNull
| FNumber (n : JS.number)
| FString (s : string).

Definition FormValues : Type := list (string * FormValue).

Definition of_form (v : FormValue) : JS.value :=
  match v with
  | FNull => JS.VNull
  | FNumber n => JS.VNum n
  | FString s => JS.VStr s
  end.

(** ** Asynchronous programs

    An [async] function is a tree of its synchronous effects [U] and of
    its suspension points: the [fetch] of an endpoint and the reading of a
    response body, each resumed with what the runtime answers. *)

Module Async.

Inductive endpoint : Type := Schema | Metrics | Predict.

Definition path (ep : endpoint) : string :=
  match ep with
  | Schema => "/schema"
  | Metrics => "/metrics"
  | Predict => "/predict"
  end.

(** What the page takes the JSON body of each endpoint to be. *)
Definition parsed (ep : endpoint) : Type :=
  match ep with
  | Schema => FieldSchema
  | Metrics => JS.value
  | Predict => JS.value
  end.

Record Error : Type := { message : string }.

(** The options of a [fetch]; [body] is the value that [JSON.stringify]
    serialises into the request body. *)
Record RequestInit : Type := {
  method : option string;
  cache : option string;
  headers : list (string * string);
  body : option JS.value
}.

Record Response : Type := { ok : bool }.

Section Prog.

Context {U : Type}.

Inductive prog (A : Type) : Type :=
| Ret (a : A)
| Throw (e : Error)
| Do (u : U) (k : prog A)
| Fetch (ep : endpoint) (init : RequestInit) (k : Error + Response -> prog A)
| ReadJson (ep : endpoint) (r : Response) (k : Error + parsed ep -> prog A).

Arguments Ret {A} a.
Arguments Throw {A} e.
Arguments Do {A} u k.
Arguments Fetch {A} ep init k.
Arguments ReadJson {A} ep r k.

Fixpoint bind {A B : Type} (p : prog A) (f : A -> prog B) : prog B :=
  match p with
  | Ret a => f a
  | Throw e => Throw e
  | Do u k => Do u (bind k f)
  | Fetch ep init k => Fetch ep init (fun a => bind (k a) f)
  | ReadJson ep r k => ReadJson ep r (fun a => bind (k a) f)
  end.

(** [try { p } catch (e) { h e }]. *)
Fixpoint try_catch {A : Type} (p : prog A) (h : Error -> prog A) : prog A :=
  match p with
  | Ret a => Ret a
  | Throw e => h e
  | Do u k => Do u (try_catch k h)
  | Fetch ep init k => Fetch ep init (fun a => try_catch (k a) h)
  | ReadJson ep r k => ReadJson ep r (fun a => try_catch (k a) h)
  end.

(** [try { p } finally { f }]. *)
Fixpoint try_finally {A : Type} (p : prog A) (f : prog unit) : prog A :=
  match p with
  | Ret a => bind f (fun _ => Ret a)
  | Throw e => bind f (fun _ => Throw e)
  | Do u k => Do u (try_finally k f)
  | Fetch ep init k => Fetch ep init (fun a => try_finally (k a) f)
  | ReadJson ep r k => ReadJson ep r (fun a => try_finally (k a) f)
  end.

(** [await] of a promise: a rejection is thrown. *)
Definition settle {A : Type} (a : Error + A) : prog A :=
  match a with
  | inl e => Throw e
  | inr x => Ret x
  end.

(** [await fetch(url, init)] and [await res.json()]. *)
Definition fetch (ep : endpoint) (init : RequestInit) : prog Response :=
  Fetch ep init settle.

Definition json (ep : endpoint) (r : Response) : prog (parsed ep) :=
  ReadJson ep r settle.

End Prog.

Arguments prog U A : clear implicits.
Arguments Ret {U A} a.
Arguments Throw {U A} e.
Arguments Do {U A} u k.
Arguments Fetch {U A} ep init k.
Arguments ReadJson {U A} ep r k.

Declare Scope prog_scope.
Delimit Scope prog_scope with prog.
Notation "x <- p ;; q" := (bind p (fun x => q))
  (at level 61, p at next level, right associativity) : prog_scope.
Notation "p ;; q" := (bind p (fun _ => q))
  (at level 61, right associativity) : prog_scope.

(** A synchronous effect as a statement. *)
Definition perform {U : Type} (u : U) : prog U unit := Do u (Ret tt).

Arguments perform {U} u /.

End Async.

(** ** The API client (frontend/app/api.ts) *)

Module Api.

Import Async.
Local Open Scope prog_scope.

(** [process.env.NEXT_PUBLIC_API_BASE || "http://localhost:8000"], and the
    address of an endpoint. *)
Definition API_BASE (NEXT_PUBLIC_API_BASE : option string) : string :=
  match NEXT_PUBLIC_API_BASE with
  | Some base => if base =? "" then "http://localhost:8000" else base
  | None => "http://localhost:8000"
  end.

Definition url (NEXT_PUBLIC_API_BASE : option string) (ep : endpoint)
  : string :=
  API_BASE NEXT_PUBLIC_API_BASE ++ path ep.

Section Client.

Context {U : Type}.

Definition get_init : RequestInit :=
  {| method := None; cache := Some "no-store"; headers := [];
     body := None |}.

Definition getSchema : prog U FieldSchema :=
  res <- fetch Schema get_init ;;
  if negb (ok res) then Throw {| message := "Failed to fetch schema" |}
  else json Schema res.

Definition getMetrics : prog U JS.value :=
  res <- fetch Metrics get_init ;;
  if negb (ok res) then Throw {| message := "Failed to fetch metrics" |}
  else json Metrics res.

Definition predict (payload : list (string * JS.value)) : prog U JS.value :=
  res <- fetch Predict
           {| method := Some "POST"; cache := None;
              headers := [("Content-Type", "application/json")];
              body := Some (JS.VObj [("payload", JS.VObj payload)]) |} ;;
  if negb (ok res) then Throw {| message := "Prediction failed" |}
  else json Predict res.

End Client.

End Api.

(** ** The page (frontend/app/page.tsx) *)

Module Page.

Import JS Async.
Local Open Scope prog_scope.

(** The six [useState] cells. *)
Record State : Type := {
  schema : option FieldSchema;
  metrics : value;
  form : FormValues;
  loading : bool;
  result : value;
  error : string
}.

Definition initial : State :=
  {| schema := None; metrics := VNull; form := []; loading := false;
     result := VNull; error := "" |}.

(** What a handler does besides awaiting: the state setters, and
    [e.preventDefault()]. *)
Inductive effect : Type :=
| preventDefault
| setSchema (s : FieldSchema)
| setMetrics (m : value)
| setForm (f : FormValues -> FormValues)
| setLoading (b : bool)
| setResult (r : value)
| setError (e : string).

Definition apply (u : effect) (st : State) : State :=
  match u with
  | preventDefault => st
  | setSchema s =>
      {| schema := Some s; metrics := metrics st; form := form st;
         loading := loading st; result := result st; error := error st |}
  | setMetrics m =>
      {| schema := schema st; metrics := m; form := form st;
         loading := loading st; result := result st; error := error st |}
  | setForm f =>
      {| schema := schema st; metrics := metrics st; form := f (form st);
         loading := loading st; result := result st; error := error st |}
  | setLoading b =>
      {| schema := schema st; metrics := metrics st; form := form st;
         loading := b; result := result st; error := error st |}
  | setResult r =>
      {| schema := schema st; metrics := metrics st; form := form st;
         loading := loading st; result := r; error := error st |}
  | setError e =>
      {| schema := schema st; metrics := metrics st; form := form st;
         loading := loading st; result := result st; error := e |}
  end.

(** [e.message || fallback]. *)
Definition message_or (e : Error) (fallback : string) : string :=
  if message e =? "" then fallback else message e.

(** The mount effect. *)
Definition load : prog effect unit :=
  try_catch
    (s <- Api.getSchema ;;
     perform (setSchema s) ;;
     m <- Api.getMetrics ;;
     perform (setMetrics m))
    (fun e => perform (setError (message_or e "Failed to load schema/metrics"))).

(** [{ ...f }]: the own properties, copied in key order. *)
Definition spread {A : Type} (f : list (string * A)) : list (string * A) :=
  flat_map
    (fun k => match own k f with Some v => [(k, v)] | None => [] end)
    (OwnPropertyKeys f).

Definition onChange (name : string) (value : FormValue) : effect :=
  setForm (fun f => CreateDataProperty (spread f) name value).

(** [schema?.feature_order || []]. *)
Definition names (schema : option FieldSchema) : list string :=
  match schema with
  | Some s =>
      match feature_order s with
      | Some l => l
      | None => []
      end
  | None => []
  end.

(** [form[key]]. *)
Definition form_get (form : FormValues) (key : string) : value :=
  match own key form with
  | Some v => of_form v
  | None => inherited key
  end.

(** [form[key] ?? null]. *)
Definition payload_value (form : FormValues) (key : string) : value :=
  coalesce (form_get form key) VNull.

(** The loop of [onSubmit] that fills [payload]. *)
Definition build_payload (schema : option FieldSchema) (form : FormValues)
  : object :=
  fold_left
    (fun payload key => OrdinarySet payload key (payload_value form key))
    (names schema) empty_object.

Definition onSubmit (schema : option FieldSchema) (form : FormValues)
  : prog effect unit :=
  perform preventDefault ;;
  perform (setLoading true) ;;
  perform (setError "") ;;
  perform (setResult VNull) ;;
  try_finally
    (try_catch
       (let payload := build_payload schema form in
        res <- Api.predict (properties payload) ;;
        perform (setResult res))
       (fun e => perform (setError (message_or e "Prediction failed"))))
    (perform (setLoading false)).

(** The Reset button. *)
Definition onReset : prog effect unit :=
  perform (setForm (fun _ => [])) ;;
  perform (setResult VNull).

(** *** Rendering a field *)

(** The members of a field description that [renderField] reads; none of
    them is a built-in property of a string, number, boolean, array or
    function. *)
Inductive member_name : Type :=
| m_type | m_options | m_min | m_max | m_placeholder.

Definition member_key (m : member_name) : string :=
  match m with
  | m_type => "type"
  | m_options => "options"
  | m_min => "min"
  | m_max => "max"
  | m_placeholder => "placeholder"
  end.

(** [meta.m] for a [meta] that is neither [null] nor [undefined], and
    [meta?.m] for any [meta]. *)
Definition member (meta : value) (m : member_name) : value :=
  match meta with
  | VObj o => Get o (member_key m)
  | _ => VUndefined
  end.

(** [meta?.type === t]. *)
Definition has_type (meta : value) (t : string) : bool :=
  match member meta m_type with
  | VStr s => s =? t
  | _ => false
  end.

(** The element [renderField] returns: its key and label, the value it
    shows, what its change handler does with [e.target.value], and the
    attributes of its kind. *)
Inductive Control : Type :=
| select_control (key label : string) (value : JS.value)
    (handler : string -> effect) (options : list JS.value)
| number_input (key label : string) (value : JS.value)
    (handler : string -> effect) (min max placeholder : JS.value)
| text_input (key label : string) (value : JS.value)
    (handler : string -> effect) (placeholder : JS.value).

Definition is_text_input (c : Control) : bool :=
  match c with
  | text_input _ _ _ _ _ => true
  | _ => false
  end.

Definition placeholder_of (c : Control) : value :=
  match c with
  | select_control _ _ _ _ _ => VUndefined
  | number_input _ _ _ _ _ _ p => p
  | text_input _ _ _ _ p => p
  end.

Definition handler_of (c : Control) : string -> effect :=
  match c with
  | select_control _ _ _ h _ => h
  | number_input _ _ _ h _ _ _ => h
  | text_input _ _ _ h _ => h
  end.

(** The change handlers of the three controls, applied to
    [e.target.value]. *)
Definition select_handler (name raw : string) : effect :=
  onChange name
    (if raw =? "" then FNull
     else if isFinite (Number raw) then FNumber (Number raw)
     else FString raw).

Definition number_handler (name raw : string) : effect :=
  onChange name (if raw =? "" then FNull else FNumber (Number raw)).

Definition text_handler (name raw : string) : effect :=
  onChange name (if raw =? "" then FNull else FString raw).

(** [None] stands for a [TypeError] thrown while rendering: [.map] of
    options that are not an array, or [.placeholder] of [null] or
    [undefined]. The options are listed as they are in the description;
    [String(opt)], through which each is shown, is not evaluated: it throws
    for an option that is an object with an own [toString] that is not a
    function, so for options that are an array [Some] tells what is
    rendered when no option is of that sort. *)
Definition renderField (form : FormValues) (name : string) (meta : value)
  : option Control :=
  let label := replaceAll name "_" " " in
  let value := coalesce (form_get form name) (VStr "") in
  if has_type meta "select" then
    match or_else (member meta m_options) (VArr []) with
    | VArr opts =>
        Some (select_control name label value (select_handler name) opts)
    | _ => None
    end
  else if has_type meta "number" then
    Some (number_input name label value (number_handler name)
            (member meta m_min) (member meta m_max)
            (or_else (member meta m_placeholder) (VStr "")))
  else if nullish meta then None
  else
    Some (text_input name label value (text_handler name)
            (or_else (member meta m_placeholder) (VStr ""))).

(** [schema.field_meta?.[name] || { type: "text" }]. *)
Definition meta_of (s : FieldSchema) (name : string) : value :=
  or_else
    (match field_meta s with
     | Some fm => Get fm name
     | None => VUndefined
     end)
    (VObj [("type", VStr "text")]).

(** The fields of the form, for a loaded schema. *)
Definition render_fields (s : FieldSchema) (form : FormValues)
  : list (option Control) :=
  map (fun name => renderField form name (meta_of s name)) (names (Some s)).

(** The form is rendered once the schema is there; until then the page
    shows its loading text. *)
Definition form_rendered (st : State) : bool :=
  match schema st with
  | Some _ => true
  | None => false
  end.

(** The [disabled] attribute of the submit button. *)
Definition submit_disabled (st : State) : bool := loading st.

(** *** Running a handler to its end

    The network as a function: what each [fetch] and each body read is
    answered with. *)

Record Network : Type := {
  respond : endpoint -> Error + Response;
  read : forall ep : endpoint, Error + parsed ep
}.

(** What a run does, in order. *)
Inductive io : Type :=
| Performed (u : effect)
| Requested (ep : endpoint) (init : RequestInit)
| Reading (ep : endpoint) (r : Response).

Fixpoint run {A : Type} (net : Network) (p : prog effect A) (st : State)
  : list io * State * (Error + A) :=
  match p with
  | Ret a => ([], st, inr a)
  | Throw e => ([], st, inl e)
  | Do u k =>
      let '(t, st', r) := run net k (apply u st) in (Performed u :: t, st', r)
  | Fetch ep init k =>
      let '(t, st', r) := run net (k (respond net ep)) st in
      (Requested ep init :: t, st', r)
  | ReadJson ep res k =>
      let '(t, st', r) := run net (k (read net ep)) st in
      (Reading ep res :: t, st', r)
  end.

Definition trace {A : Type} (net : Network) (p : prog effect A) (st : State)
  : list io := fst (fst (run net p st)).

Definition final {A : Type} (net : Network) (p : prog effect A) (st : State)
  : State := snd (fst (run net p st)).

Definition outcome {A : Type} (net : Network) (p : prog effect A) (st : State)
  : Error + A := snd (run net p st).

(** The setter calls of a trace, and the endpoints it requests. *)
Fixpoint setters (t : list io) : list effect :=
  match t with
  | [] => []
  | Performed preventDefault :: t' => setters t'
  | Performed u :: t' => u :: setters t'
  | _ :: t' => setters t'
  end.

Fixpoint requests (t : list io) : list endpoint :=
  match t with
  | [] => []
  | Requested ep _ :: t' => ep :: requests t'
  | _ :: t' => requests t'
  end.

(** *** The mounted page

    The state, and the handlers that wait for the network. A handler runs
    until it awaits; the answer of the network resumes it. The setter calls
    of an event are in the state before the next event is handled, and a
    handler reads [schema] and [form] as they were rendered when it
    started. *)

Record Mounted : Type := {
  state : State;
  pending : list (prog effect unit)
}.

Fixpoint advance (p : prog effect unit) (st : State)
  : State * option (prog effect unit) :=
  match p with
  | Ret _ | Throw _ => (st, None)
  | Do u k => advance k (apply u st)
  | Fetch _ _ _ | ReadJson _ _ _ => (st, Some p)
  end.

Definition spawn (p : prog effect unit) (st : State)
  (waiting : list (prog effect unit)) : Mounted :=
  let '(st', rest) := advance p st in
  {| state := st';
     pending := match rest with
                | Some t => t :: waiting
                | None => waiting
                end |}.

Fixpoint remove_nth {A : Type} (i : nat) (l : list A) : list A :=
  match i, l with
  | _, [] => []
  | O, _ :: l' => l'
  | S i', x :: l' => x :: remove_nth i' l'
  end.

(** The first render, with the mount effect started. *)
Definition mount : Mounted := spawn load initial [].

(** Activating the submit button: nothing without the form, nothing
    while the button is disabled, [onSubmit] otherwise. *)
Definition click_submit (m : Mounted) : Mounted :=
  if form_rendered (state m) && negb (submit_disabled (state m)) then
    spawn (onSubmit (schema (state m)) (form (state m))) (state m) (pending m)
  else m.

Inductive event : Type :=
| Change (name raw : string)
| Reset
| Submit
| Responded (i : nat) (ep : endpoint) (a : Error + Response)
| BodyRead (i : nat) (ep : endpoint) (a : Error + parsed ep).

Inductive step : Mounted -> event -> Mounted -> Prop :=
| step_change m s name c raw :
    schema (state m) = Some s ->
    In name (names (Some s)) ->
    renderField (form (state m)) name (meta_of s name) = Some c ->
    step m (Change name raw)
      (spawn (perform (handler_of c raw)) (state m) (pending m))
| step_reset m :
    form_rendered (state m) = true ->
    step m Reset (spawn onReset (state m) (pending m))
| step_submit m :
    form_rendered (state m) = true ->
    submit_disabled (state m) = false ->
    step m Submit (click_submit m)
| step_responded m i ep init k a :
    nth_error (pending m) i = Some (Fetch ep init k) ->
    step m (Responded i ep a)
      (spawn (k a) (state m) (remove_nth i (pending m)))
| step_body_read m i ep r k a :
    nth_error (pending m) i = Some (ReadJson ep r k) ->
    step m (BodyRead i ep a)
      (spawn (k a) (state m) (remove_nth i (pending m))).

(** The network answering the handler that waits at position [i], as a
    function on pages, and the event this is. *)
Definition resume (i : nat) (net : Network) (m : Mounted) : Mounted :=
  match nth_error (pending m) i with
  | Some (Fetch ep _ k) =>
      spawn (k (respond net ep)) (state m) (remove_nth i (pending m))
  | Some (ReadJson ep _ k) =>
      spawn (k (read net ep)) (state m) (remove_nth i (pending m))
  | _ => m
  end.

Definition resumed (i : nat) (net : Network) (m : Mounted) : option event :=
  match nth_error (pending m) i with
  | Some (Fetch ep _ _) => Some (Responded i ep (respond net ep))
  | Some (ReadJson ep _ _) => Some (BodyRead i ep (read net ep))
  | _ => None
  end.

Definition clicked (m : Mounted) : option event :=
  if form_rendered (state m) && negb (submit_disabled (state m)) then Some Submit
  else None.

(** The user editing the field [name], as a function on pages. *)
Definition change (name raw : string) (m : Mounted) : Mounted :=
  match schema (state m) with
  | Some s =>
      if in_dec string_dec name (names (Some s)) then
        match renderField (form (state m)) name (meta_of s name) with
        | Some c => spawn (perform (handler_of c raw)) (state m) (pending m)
        | None => m
        end
      else m
  | None => m
  end.

Definition changed (name raw : string) (m : Mounted) : option event :=
  match schema (state m) with
  | Some s =>
      if in_dec string_dec name (names (Some s)) then
        match renderField (form (state m)) name (meta_of s name) with
        | Some _ => Some (Change name raw)
        | None => None
        end
      else None
  | None => None
  end.

Definition record (e : option event) (h : list event) : list event :=
  match e with
  | Some e => e :: h
  | None => h
  end.

(** A session: what the user and the network do, one after the other,
    from the mount on; it yields the page and its history. *)
Inductive action : Type :=
| Edit (name raw : string)
| Press
| Answer (i : nat).

Definition act (net : Network) (a : action) (mh : Mounted * list event)
  : Mounted * list event :=
  let '(m, h) := mh in
  match a with
  | Edit name raw => (change name raw m, record (changed name raw m) h)
  | Press => (click_submit m, record (clicked m) h)
  | Answer i => (resume i net m, record (resumed i net m) h)
  end.

Definition play (net : Network) (session : list action)
  : Mounted * list event :=
  fold_left (fun mh a => act net a mh) session (mount, []).

(** The history of a mounted page, latest event first. *)
Inductive history : list event -> Mounted -> Prop :=
| history_mount : history [] mount
| history_step h m e m' : history h m -> step m e m' -> history (e :: h) m'.

Definition reachable (m : Mounted) : Prop := exists h, history h m.

(** The prediction requests that have not settled. *)
Definition awaits_predict (p : prog effect unit) : bool :=
  match p with
  | Fetch Predict _ _ | ReadJson Predict _ _ => true
  | _ => false
  end.

Definition in_flight (m : Mounted) : nat :=
  List.length (filter awaits_predict (pending m)).

Definition fetch_failed (a : Error + Response) : bool :=
  match a with
  | inl _ => true
  | inr r => negb (ok r)
  end.

Definition read_failed {A : Type} (a : Error + A) : bool :=
  match a with
  | inl _ => true
  | inr _ => false
  end.

Definition is_predict (ep : endpoint) : bool :=
  match ep with
  | Predict => true
  | _ => false
  end.

(** A failure of the load sequence: a rejected fetch, a response that is
    not ok or a body that cannot be read, on the schema or the metrics
    endpoint. *)
Definition load_failure (e : event) : bool :=
  match e with
  | Responded _ ep a => negb (is_predict ep) && fetch_failed a
  | BodyRead _ ep a => negb (is_predict ep) && read_failed a
  | _ => false
  end.

(** What a parsed body is as a value, for the endpoints that are read as
    one. *)
Definition as_value (ep : endpoint) : parsed ep -> option value :=
  match ep with
  | Schema => fun _ => None
  | Metrics => fun m => Some m
  | Predict => fun res => Some res
  end.

Definition body_of {ep : endpoint} (a : Error + parsed ep) : option value :=
  match a with
  | inl _ => None
  | inr x => as_value ep x
  end.

(** The shape of the load sequence from any of its awaits on: it awaits
    the schema and the metrics endpoints only, stores the schema and the
    metrics, and sets the error only right after an answer that failed. *)
Fixpoint load_shape (failed : bool) (p : prog effect unit) : Prop :=
  match p with
  | Ret _ => True
  | Throw _ => False
  | Do (setSchema _) k | Do (setMetrics _) k => load_shape failed k
  | Do (setError _) (Ret _) => failed = true
  | Do _ _ => False
  | Fetch ep _ k =>
      ep <> Predict /\ forall a, load_shape (fetch_failed a) (k a)
  | ReadJson ep _ k =>
      ep <> Predict /\ forall a, load_shape (read_failed a) (k a)
  end.

(** The shape of a submit from any of its awaits on: it awaits the
    predict endpoint only, and ends by setting a non-empty error or, right
    after a body read as [res], the result [res], and then clearing
    [loading]. *)
Fixpoint submit_shape (expect : option value) (p : prog effect unit) : Prop :=
  match p with
  | Do (setResult res) (Do (setLoading false) (Ret _)) => expect = Some res
  | Do (setError e) (Do (setLoading false) (Ret _)) =>
      expect = None /\ e <> ""
  | Fetch ep _ k =>
      ep = Predict /\ expect = None /\ forall a, submit_shape None (k a)
  | ReadJson ep _ k =>
      ep = Predict /\ expect = None /\
      forall a, submit_shape (body_of a) (k a)
  | _ => False
  end.

Definition awaiting (p : prog effect unit) : bool :=
  match p with
  | Fetch _ _ _ | ReadJson _ _ _ => true
  | _ => false
  end.

Definition waits_well (p : prog effect unit) : Prop :=
  awaiting p = true /\ (load_shape false p \/ submit_shape None p).

(** What holds of every reachable page: the waiting handlers are load
    sequences and submits, and a submit waits exactly while [loading]. *)
Record page_invariant (m : Mounted) : Prop := {
  waiting_shapes : Forall waits_well (pending m);
  waiting_submits : in_flight m = if loading (state m) then 1 else 0
}.

(** After a submit: no error and no result while loading, and not both
    of them afterwards. *)
Definition balanced (st : State) : Prop :=
  if loading st then error st = "" /\ result st = VNull
  else error st = "" \/ result st = VNull.

(** *** The rest of the page *)

(** The colour of the risk label and of the progress bar. *)
Definition getRiskColor (risk : string) : string :=
  if risk =? "High Risk" then "#dc2626"
  else if risk =? "Moderate Risk" then "#f59e0b"
  else "#16a34a".

(** The text of the submit button: [loading ? "Predicting..." : "Get
    Probability"]. *)
Inductive caption : Type := Predicting | GetProbability.

Definition submit_caption (st : State) : caption :=
  if loading st then Predicting else GetProbability.

(** The [key], the label and the [value] of a rendered field. *)
Definition key_of (c : Control) : string :=
  match c with
  | select_control k _ _ _ _ => k
  | number_input k _ _ _ _ _ _ => k
  | text_input k _ _ _ _ => k
  end.

Definition label_of (c : Control) : string :=
  match c with
  | select_control _ l _ _ _ => l
  | number_input _ l _ _ _ _ _ => l
  | text_input _ l _ _ _ => l
  end.

Definition value_of (c : Control) : value :=
  match c with
  | select_control _ _ v _ _ => v
  | number_input _ _ v _ _ _ _ => v
  | text_input _ _ v _ _ => v
  end.

Definition is_array (v : value) : bool :=
  match v with
  | VArr _ => true
  | _ => false
  end.

(** The Reset button, as a function on pages: it is there once the form is
    rendered. *)
Definition click_reset (m : Mounted) : Mounted :=
  if form_rendered (state m) then spawn onReset (state m) (pending m) else m.

(** The requests of a trace with their options, and the bodies it
    reads. *)
Fixpoint requested (t : list io) : list (endpoint * RequestInit) :=
  match t with
  | [] => []
  | Requested ep init :: t' => (ep, init) :: requested t'
  | _ :: t' => requested t'
  end.

Fixpoint readings (t : list io) : list endpoint :=
  match t with
  | [] => []
  | Reading ep _ :: t' => ep :: readings t'
  | _ :: t' => readings t'
  end.

(** A handler that, from here on, sets neither the schema nor the form. *)
Fixpoint keeps_fields (p : prog effect unit) : Prop :=
  match p with
  | Ret _ | Throw _ => True
  | Do (setSchema _) _ | Do (setForm _) _ => False
  | Do _ k => keeps_fields k
  | Fetch _ _ k => forall a, keeps_fields (k a)
  | ReadJson _ _ k => forall a, keeps_fields (k a)
  end.

(** A handler that has not stored the schema yet: until it does, it sets
    nothing but the metrics and the error and awaits the schema and the
    metrics endpoints only; it stores the schema at most once. *)
Fixpoint before_schema (p : prog effect unit) : Prop :=
  match p with
  | Ret _ | Throw _ => True
  | Do (setSchema _) k => keeps_fields k
  | Do (setMetrics _) k | Do (setError _) k => before_schema k
  | Do _ _ => False
  | Fetch ep _ k => ep <> Predict /\ forall a, before_schema (k a)
  | ReadJson ep _ k => ep <> Predict /\ forall a, before_schema (k a)
  end.

Definition is_submit (e : event) : bool :=
  match e with
  | Submit => true
  | _ => false
  end.

(** Whether a submit was ever started, and the events that followed the
    latest one (all of them when there was none). *)
Definition submitted (h : list event) : bool := existsb is_submit h.

Fixpoint after_submit (h : list event) : list event :=
  match h with
  | [] => []
  | e :: h' => if is_submit e then [] else e :: after_submit h'
  end.

(** No failure of the load sequence since the latest submit. *)
Definition quiet (h : list event) : bool :=
  forallb (fun e => negb (load_failure e)) (after_submit h).

(** The end of a submit: [loading] cleared, with the result [res] of a
    body that was read, or with a non-empty error. *)
Definition settled_with (expect : option value) (st st' : State) : Prop :=
  loading st' = false /\
  match expect with
  | Some res => result st' = res /\ error st' = error st
  | None => result st' = result st /\ error st' <> ""
  end.

(** What an event does to [loading], [result] and [error]. *)
Definition moves (e : event) (st st' : State) : Prop :=
  match e with
  | Change _ _ =>
      loading st' = loading st /\ result st' = result st /\
      error st' = error st
  | Reset =>
      loading st' = loading st /\ result st' = VNull /\ error st' = error st
  | Submit => loading st' = true /\ result st' = VNull /\ error st' = ""
  | Responded _ ep a =>
      if is_predict ep then
        loading st = true /\ (st' = st \/ settled_with None st st')
      else
        loading st' = loading st /\ result st' = result st /\
        (fetch_failed a = false -> error st' = error st)
  | BodyRead _ ep a =>
      if is_predict ep then
        loading st = true /\
        (body_of a = None /\ st' = st \/ settled_with (body_of a) st st')
      else
        loading st' = loading st /\ result st' = result st /\
        (read_failed a = false -> error st' = error st)
  end.

(** What a history tells about the state: nothing was loading and no
    result was there before the first submit, and the state is balanced
    when no load failure came after the latest one. *)
Definition tidy (h : list event) (st : State) : Prop :=
  (submitted h = false -> loading st = false /\ result st = VNull) /\
  (submitted h = true -> quiet h = true -> balanced st).

(** The loop of [onSubmit], from any object on. *)
Definition fill (form : FormValues) (ks : list string) (O : object) : object :=
  fold_left (fun payload key => OrdinarySet payload key (payload_value form key))
    ks O.

(** What a call of the client yields for the answers of the network:
    the rejection of the fetch, the message of the call for a response that
    is not ok, and else what reading the body yields. *)
Definition yields (net : Network) (ep : endpoint) (failure : string)
  : Error + parsed ep :=
  match respond net ep with
  | inl e => inl e
  | inr r => if ok r then read net ep else inl {| message := failure |}
  end.

(** Whether the body of the response is read. *)
Definition body_read (net : Network) (ep : endpoint) : list endpoint :=
  match respond net ep with
  | inl _ => []
  | inr r => if ok r then [ep] else []
  end.

(** While the schema is missing, at most one handler waits, and it has
    not stored the schema yet. *)
Definition waiting_for_schema (m : Mounted) : Prop :=
  pending m = [] \/ exists p, pending m = [p] /\ before_schema p.

(** What the schema tells about a page with the history [h]: the form
    holds no empty string; without a schema nothing was entered, submitted
    or shown; with a schema [s], the waiting handlers keep it and the form
    has entries for names of [s] only. *)
Definition well_formed (h : list event) (m : Mounted) : Prop :=
  (forall k, own k (form (state m)) <> Some (FString "")) /\
  match schema (state m) with
  | None =>
      waiting_for_schema m /\ form (state m) = [] /\
      loading (state m) = false /\ result (state m) = VNull /\
      submitted h = false
  | Some s =>
      Forall keeps_fields (pending m) /\
      forall k, own k (form (state m)) <> None -> In k (names (Some s))
  end.

End Page.

(** ** Sample data: the scenario of two fields, [age] and [category] *)

Module Sample.

Import JS Async Page.

Definition fields : FieldSchema :=
  {| feature_order := Some ["age"; "category"];
     field_meta :=
       Some [("age", VObj [("type", VStr "number")]);
             ("category",
              VObj [("type", VStr "select");
                    ("options", VArr [VStr "A"; VStr "B"])])] |}.

Definition high_risk : value :=
  VObj [("probability", VNum (Number "0.82"));
        ("risk_label", VStr "High Risk");
        ("inputs_used", VObj [])].

(** A network that serves the schema and a prediction, and answers the
    metrics request as told. *)
Definition network (metrics : Error + Response) : Network :=
  {| respond := fun ep =>
       match ep with
       | Metrics => metrics
       | _ => inr {| ok := true |}
       end;
     read := fun ep =>
       match ep with
       | Schema => inr fields
       | Metrics => inr (VObj [])
       | Predict => inr high_risk
       end |}.

Definition unavailable : Error + Response := inr {| ok := false |}.

(** The schema is loaded, the user fills the form and submits, the
    prediction arrives, and only then the metrics request fails. *)
Definition late_failure : list action :=
  [Answer 0; Answer 0; Edit "age" "34"; Edit "category" "B"; Press;
   Answer 0; Answer 0; Answer 0].

(** The same session up to the press on the submit button, and up to the
    arrival of the prediction. *)
Definition submitting : list action :=
  [Answer 0; Answer 0; Edit "age" "34"; Edit "category" "B"; Press].

Definition predicted : list action :=
  [Answer 0; Answer 0; Edit "age" "34"; Edit "category" "B"; Press;
   Answer 0; Answer 0].

(** A schema whose only field has a description of an unknown kind. *)
Definition dated : FieldSchema :=
  {| feature_order := Some ["dob"];
     field_meta :=
       Some [("dob", VObj [("type", VStr "date");
                           ("placeholder", VStr "dd/mm")])] |}.

(** A schema whose field names include an array index. *)
Definition numbered : FieldSchema :=
  {| feature_order := Some ["b"; "1"]; field_meta := None |}.

(** The page once the schema is stored, while the metrics request
    waits, and the same page after the user chose a category. *)
Definition loaded : list action := [Answer 0; Answer 0].

Definition chosen : list action :=
  [Answer 0; Answer 0; Edit "category" "B"].

(** A schema with a field that has no description. *)
Definition sparse : FieldSchema :=
  {| feature_order := Some ["age"; "blood_group"];
     field_meta := Some [("age", VObj [("type", VStr "number")])] |}.

(** A schema with a select whose options are not an array, and one whose
    options are missing. *)
Definition malformed : FieldSchema :=
  {| feature_order := Some ["cycle"; "category"; "age"];
     field_meta :=
       Some [("cycle", VObj [("type", VStr "select");
                             ("options", VStr "R,I")]);
             ("category", VObj [("type", VStr "select")]);
             ("age", VObj [("type", VStr "number")])] |}.

End Sample.

(** * Properties of the page *)

Import JS Async Page.

(** ** Own properties *)

Section OwnPropertyFacts.

Context {A : Type}.
Implicit Types (o : list (string * A)) (k : string) (v : A).

Lemma own_overwrite_hit k v o :
  own k o <> None -> own k (overwrite k v o) = Some v.
Proof.
  induction o as [|[k' v'] o IH]; simpl; intros Hk.
  - congruence.
  - destruct (k =? k') eqn:E; simpl; rewrite E; auto.
Qed.

Lemma own_append_miss k o o' : own k o = None -> own k (o ++ o') = own k o'.
Proof.
  induction o as [|[k' v'] o IH]; simpl; intros Hk; auto.
  destruct (k =? k'); [discriminate | auto].
Qed.

Lemma own_append_hit k v o o' : own k o = Some v -> own k (o ++ o') = Some v.
Proof.
  induction o as [|[k' v'] o IH]; simpl; intros Hk; [discriminate|].
  destruct (k =? k'); auto.
Qed.

Lemma own_created k v o : own k (CreateDataProperty o k v) = Some v.
Proof.
  unfold CreateDataProperty.
  destruct (own k o) eqn:E.
  - apply own_overwrite_hit. congruence.
  - rewrite own_append_miss by assumption. simpl.
    now rewrite String.eqb_refl.
Qed.

Lemma own_In k o : own k o <> None <-> In k (map fst o).
Proof.
  induction o as [|[k' v'] o IH]; simpl.
  - split; [congruence | tauto].
  - destruct (String.eqb_spec k k') as [->|N].
    + split; [auto | congruence].
    + rewrite IH. split; [auto | intros [E|I]; congruence].
Qed.

End OwnPropertyFacts.

(** ** Field edits *)

(** What an edit stores: the entry of the form under the edited name. *)
Lemma stored_by_onChange name v st :
  own name (form (apply (onChange name v) st)) = Some v.
Proof. simpl. apply own_created. Qed.

Lemma number_is_not_select meta :
  has_type meta "number" = true -> has_type meta "select" = false.
Proof.
  unfold has_type. destruct (member meta m_type); try discriminate.
  intros E. apply String.eqb_eq in E. now subst.
Qed.

(** C5: the change handler of a select field stores [null] for the empty
    choice, the number for a choice that [Number] reads as a finite number,
    and the string itself for any other choice. *)
Theorem select_edit_coercion form name meta c raw st :
  has_type meta "select" = true ->
  renderField form name meta = Some c ->
  let stored := own name (Page.form (apply (handler_of c raw) st)) in
  (raw = "" -> stored = Some FNull) /\
  (raw <> "" -> isFinite (Number raw) = true ->
   stored = Some (FNumber (Number raw))) /\
  (raw <> "" -> isFinite (Number raw) = false -> stored = Some (FString raw)).
Proof.
  intros Hsel Hc. unfold renderField in Hc. rewrite Hsel in Hc.
  destruct (or_else (member meta m_options) (VArr [])); try discriminate.
  injection Hc as <-. cbv zeta. cbn [handler_of]. unfold select_handler.
  rewrite stored_by_onChange.
  repeat split.
  - intros ->. reflexivity.
  - intros N F. apply String.eqb_neq in N. now rewrite N, F.
  - intros N F. apply String.eqb_neq in N. now rewrite N, F.
Qed.

(** C6: the change handler of a number field stores [null] for the empty
    input, which is neither [NaN] nor the empty string. *)
Theorem number_edit_empty form name meta c st :
  has_type meta "number" = true ->
  renderField form name meta = Some c ->
  let stored := own name (Page.form (apply (handler_of c "") st)) in
  stored = Some FNull /\
  stored <> Some (FNumber NaN) /\
  stored <> Some (FString "").
Proof.
  intros Hnum Hc. unfold renderField in Hc.
  rewrite (number_is_not_select _ Hnum), Hnum in Hc.
  injection Hc as <-. cbv zeta. cbn [handler_of]. unfold number_handler.
  rewrite stored_by_onChange. simpl. repeat split; discriminate.
Qed.

(** C10: the change handler of a number field stores [Number(raw)] for
    every input but the empty one, so [NaN] for an input [Number] cannot
    read; [null] is stored for the empty input only. *)
Theorem number_edit_unparsed form name meta c raw st :
  has_type meta "number" = true ->
  renderField form name meta = Some c ->
  let stored := own name (Page.form (apply (handler_of c raw) st)) in
  (raw <> "" -> stored = Some (FNumber (Number raw))) /\
  (raw <> "" -> isNaN (Number raw) = true -> stored = Some (FNumber NaN)) /\
  (stored = Some FNull <-> raw = "").
Proof.
  intros Hnum Hc. unfold renderField in Hc.
  rewrite (number_is_not_select _ Hnum), Hnum in Hc.
  injection Hc as <-. cbv zeta. cbn [handler_of]. unfold number_handler.
  rewrite stored_by_onChange.
  destruct (String.eqb_spec raw "") as [->|N].
  - repeat split; auto; congruence.
  - repeat split; auto; try congruence.
    intros _ F. destruct (Number raw); try discriminate. reflexivity.
Qed.

(** ** The API client *)

(** C8: a response whose status is not a success makes each of the three
    calls fail with the message of its endpoint. *)
Theorem non_success_status_message net st r :
  ok r = false ->
  (respond net Schema = inr r ->
   outcome net Api.getSchema st = inl {| message := "Failed to fetch schema" |}) /\
  (respond net Metrics = inr r ->
   outcome net Api.getMetrics st = inl {| message := "Failed to fetch metrics" |}) /\
  (forall payload,
   respond net Predict = inr r ->
   outcome net (Api.predict payload) st = inl {| message := "Prediction failed" |}).
Proof.
  intros Hok. unfold outcome.
  repeat split; intros; simpl; rewrite H; simpl; rewrite Hok; reflexivity.
Qed.

(** ** Rendering *)

Lemma inherited_truthy_or_undefined k :
  inherited k = VNative k \/ inherited k = VUndefined.
Proof. unfold inherited. destruct in_dec; auto. Qed.

(** A name without a description is rendered as a text input with an
    empty placeholder. *)
Lemma missing_meta_renders_text s form name :
  match field_meta s with
  | Some fm => own name fm = None
  | None => True
  end ->
  renderField form name (meta_of s name) =
    Some (text_input name (replaceAll name "_" " ")
            (coalesce (form_get form name) (VStr "")) (text_handler name)
            (VStr "")).
Proof.
  intros Habsent.
  assert (E : meta_of s name = VNative name \/
              meta_of s name = VObj [("type", VStr "text")]).
  { unfold meta_of. destruct (field_meta s) as [fm|]; [|now right].
    unfold Get. rewrite Habsent.
    destruct (inherited_truthy_or_undefined name) as [-> | ->]; auto. }
  destruct E as [-> | ->]; reflexivity.
Qed.

(** A description of any shape whose [type] is neither [select] nor
    [number] is rendered as a text input; its placeholder is the one of the
    description, or empty when it has none. *)
Lemma other_kind_renders_text form name meta :
  nullish meta = false ->
  has_type meta "select" = false ->
  has_type meta "number" = false ->
  renderField form name meta =
    Some (text_input name (replaceAll name "_" " ")
            (coalesce (form_get form name) (VStr "")) (text_handler name)
            (or_else (member meta m_placeholder) (VStr ""))).
Proof.
  intros Hn Hs Hnum. unfold renderField. now rewrite Hs, Hnum, Hn.
Qed.

Lemma meta_of_not_nullish s name : nullish (meta_of s name) = false.
Proof.
  unfold meta_of, or_else.
  destruct (ToBoolean _) eqn:T; [|reflexivity].
  destruct (match field_meta s with Some fm => Get fm name | None => VUndefined end);
    try reflexivity; discriminate.
Qed.

(** C7, as amended: a name of [feature_order] without a description is
    rendered as a text input with an empty placeholder, and a description
    whose [type] is none of [select] and [number] is rendered as a text
    input with the placeholder of the description, empty when it has none;
    neither case fails. *)
Theorem missing_or_unknown_meta_falls_back_to_text s form name :
  (match field_meta s with
   | Some fm => own name fm = None
   | None => True
   end ->
   renderField form name (meta_of s name) =
     Some (text_input name (replaceAll name "_" " ")
             (coalesce (form_get form name) (VStr "")) (text_handler name)
             (VStr ""))) /\
  (has_type (meta_of s name) "select" = false ->
   has_type (meta_of s name) "number" = false ->
   renderField form name (meta_of s name) =
     Some (text_input name (replaceAll name "_" " ")
             (coalesce (form_get form name) (VStr "")) (text_handler name)
             (or_else (member (meta_of s name) m_placeholder) (VStr "")))).
Proof.
  split.
  - apply missing_meta_renders_text.
  - apply other_kind_renders_text, meta_of_not_nullish.
Qed.

(** ** The payload *)

Lemma index_keys_named ks :
  Forall (fun k => array_index k = None) ks -> index_keys ks = [].
Proof.
  induction 1 as [|k ks Hk _ IH]; simpl; [reflexivity|]. now rewrite Hk.
Qed.

Lemma filter_named_all ks :
  Forall (fun k => array_index k = None) ks -> filter named ks = ks.
Proof.
  induction 1 as [|k ks Hk _ IH]; simpl; [reflexivity|].
  unfold named at 1. rewrite Hk. now f_equal.
Qed.

(** Without array indices among them, the keys come in creation order. *)
Lemma OwnPropertyKeys_named {A : Type} (o : list (string * A)) :
  Forall (fun k => array_index k = None) (map fst o) ->
  OwnPropertyKeys o = map fst o.
Proof.
  intros H. unfold OwnPropertyKeys.
  now rewrite index_keys_named, filter_named_all.
Qed.

Lemma payload_value_entry form key :
  ~ In key object_prototype_names ->
  payload_value form key =
    match own key form with
    | Some v => of_form v
    | None => VNull
    end.
Proof.
  intros Hk. unfold payload_value, form_get.
  destruct (own key form) as [[| |]|]; try reflexivity.
  unfold inherited. destruct in_dec; [contradiction | reflexivity].
Qed.

Lemma OrdinarySet_fresh O k v :
  own k (properties O) = None ->
  k <> "__proto__" ->
  OrdinarySet O k v =
    {| null_prototype := null_prototype O;
       properties := properties O ++ [(k, v)] |}.
Proof.
  intros Hown Hk. unfold OrdinarySet. rewrite Hown.
  apply String.eqb_neq in Hk. now rewrite Hk.
Qed.

(** Distinct names other than [__proto__] are appended one by one. *)
Lemma fill_fresh form ks : forall O,
  NoDup ks ->
  ~ In "__proto__" ks ->
  (forall k, In k ks -> own k (properties O) = None) ->
  properties
    (fold_left (fun payload key => OrdinarySet payload key (payload_value form key))
       ks O) =
  properties O ++ map (fun k => (k, payload_value form k)) ks.
Proof.
  induction ks as [|k ks IH]; intros O Hnd Hproto Hfresh; simpl.
  - now rewrite app_nil_r.
  - inversion Hnd as [|? ? Hk Hnd']; subst.
    assert (Hne : k <> "__proto__") by (intros ->; apply Hproto; now left).
    rewrite OrdinarySet_fresh by auto with datatypes.
    rewrite IH.
    + simpl. now rewrite <- app_assoc.
    + assumption.
    + intros I. apply Hproto. now right.
    + intros k' Hk'. simpl. rewrite own_append_miss by auto with datatypes.
      simpl. destruct (String.eqb_spec k' k); [congruence | reflexivity].
Qed.

Lemma own_map_entry {A : Type} (f : string -> A) ks k :
  In k ks -> own k (map (fun k => (k, f k)) ks) = Some (f k).
Proof.
  induction ks as [|k' ks IH]; simpl; [tauto|].
  intros [->|Hk].
  - now rewrite String.eqb_refl.
  - destruct (String.eqb_spec k k') as [->|N]; auto.
Qed.

(** C1, as amended: when the names of [feature_order] are distinct and
    none of them is an array index or the name of a property of
    [Object.prototype], the payload has the names of [feature_order] as its
    keys, in the same order, each with the entry of the form, or [null]
    when the form has none. *)
Theorem payload_follows_feature_order schema form :
  NoDup (names schema) ->
  (forall k, In k (names schema) -> array_index k = None) ->
  (forall k, In k (names schema) -> ~ In k object_prototype_names) ->
  let payload := properties (build_payload schema form) in
  OwnPropertyKeys payload = names schema /\
  forall k, In k (names schema) ->
    own k payload =
      Some match own k form with
           | Some v => of_form v
           | None => VNull
           end.
Proof.
  intros Hnd Hidx Hproto payload.
  assert (E : payload = map (fun k => (k, payload_value form k)) (names schema)).
  { unfold payload, build_payload. rewrite fill_fresh; auto.
    intros I. apply (Hproto _ I). simpl. tauto. }
  rewrite E. split.
  - rewrite OwnPropertyKeys_named; rewrite map_map; simpl; rewrite map_id; auto.
    now apply Forall_forall.
  - intros k Hk. rewrite own_map_entry by assumption.
    now rewrite payload_value_entry by auto.
Qed.

(** ** One submit, from start to end *)

Lemma message_or_not_empty e fallback :
  fallback <> "" -> message_or e fallback <> "".
Proof.
  intros Hf. unfold message_or.
  destruct (String.eqb_spec (message e) ""); auto.
Qed.

(** C2: what [onSubmit] does, in order: it sets [loading] and clears
    [error] and [result], then requests the prediction; when [predict]
    succeeds it sets the result to what was returned, and when [predict]
    fails it sets the error to the message of the failure, or to
    "Prediction failed" when that message is empty; last it clears
    [loading], once. *)
Theorem submit_lifecycle net schema form st :
  let t := trace net (onSubmit schema form) st in
  let payload := properties (build_payload schema form) in
  let settled :=
    match outcome net (Api.predict payload) st with
    | inr res => setResult res
    | inl e =>
        setError (if message e =? "" then "Prediction failed" else message e)
    end in
  let reading :=
    match respond net Predict with
    | inl _ => []
    | inr r => if ok r then [Reading Predict r] else []
    end in
  t = [Performed preventDefault; Performed (setLoading true);
       Performed (setError ""); Performed (setResult VNull);
       Requested Predict
         {| method := Some "POST"; cache := None;
            headers := [("Content-Type", "application/json")];
            body := Some (VObj [("payload", VObj payload)]) |}]
      ++ reading ++ [Performed settled; Performed (setLoading false)] /\
  setters t = [setLoading true; setError ""; setResult VNull; settled;
               setLoading false] /\
  List.length
    (filter (fun u => match u with setLoading false => true | _ => false end)
       (setters t)) = 1 /\
  loading (final net (onSubmit schema form) st) = false.
Proof.
  unfold trace, final, outcome. simpl.
  destruct (respond net Predict) as [e|r]; simpl.
  - repeat split.
  - destruct (ok r); simpl.
    + destruct (read net Predict) as [e|res]; simpl; repeat split.
    + repeat split.
Qed.

(** ** The load sequence *)

(** C9: the load sequence requests the schema first; when that call fails
    it requests nothing else and only sets the error; when it succeeds and
    the metrics call fails, the schema stays stored, the form is rendered
    and the error is the only other cell set. *)
Theorem load_sequence net st :
  let t := trace net load st in
  let st' := final net load st in
  (requests t = [Schema] \/ requests t = [Schema; Metrics]) /\
  (forall e,
     outcome net Api.getSchema st = inl e ->
     requests t = [Schema] /\
     st' = apply (setError (message_or e "Failed to load schema/metrics")) st) /\
  (forall s e,
     outcome net Api.getSchema st = inr s ->
     outcome net Api.getMetrics st = inl e ->
     requests t = [Schema; Metrics] /\
     schema st' = Some s /\
     form_rendered st' = true /\
     st' = apply (setError (message_or e "Failed to load schema/metrics"))
             (apply (setSchema s) st)).
Proof.
  unfold trace, final, outcome. simpl.
  destruct (respond net Schema) as [e1|r1]; simpl.
  - repeat split; auto; intros; try discriminate. all: congruence.
  - destruct (ok r1); simpl.
    + destruct (read net Schema) as [e2|s]; simpl.
      * repeat split; auto; intros; try discriminate. all: congruence.
      * destruct (respond net Metrics) as [e3|r3]; simpl.
        { repeat split; auto; intros; try discriminate. all: congruence. }
        destruct (ok r3); simpl.
        { destruct (read net Metrics) as [e4|mt]; simpl;
            repeat split; auto; intros; try discriminate. all: congruence. }
        { repeat split; auto; intros; try discriminate. all: congruence. }
    + repeat split; auto; intros; try discriminate. all: congruence.
Qed.

(** ** The mounted page *)

Lemma load_waits :
  exists p,
    advance load initial = (initial, Some p) /\
    awaiting p = true /\ awaits_predict p = false /\ load_shape false p.
Proof.
  eexists. split; [reflexivity|]. cbn.
  split; [reflexivity|]. split; [reflexivity|].
  split; [discriminate|]. intros [e|[[|]]]; cbn; auto.
  split; [discriminate|]. intros [e|s]; cbn; auto.
  split; [discriminate|]. intros [e|[[|]]]; cbn; auto.
  split; [discriminate|]. intros [e|mt]; cbn; auto.
Qed.

Lemma onSubmit_waits schema form st :
  exists p,
    advance (onSubmit schema form) st =
      (apply (setResult VNull) (apply (setError "") (apply (setLoading true) st)),
       Some p) /\
    awaiting p = true /\ awaits_predict p = true /\ submit_shape None p.
Proof.
  eexists. split; [reflexivity|]. cbn.
  assert (F : forall e, message_or e "Prediction failed" <> "")
    by (intros e; now apply message_or_not_empty).
  repeat split; auto.
  intros [e|[[|]]]; cbn; auto; try (split; [reflexivity | discriminate]).
  repeat split; auto.
  intros [e|res]; cbn; auto.
Qed.

Lemma advance_load failed p :
  load_shape failed p ->
  forall st, exists st' rest,
    advance p st = (st', rest) /\
    loading st' = loading st /\
    result st' = result st /\
    (failed = false -> error st' = error st) /\
    match rest with
    | Some q => waits_well q /\ awaits_predict q = false
    | None => True
    end.
Proof.
  induction p as [[]|e|u k IH|ep init k IH|ep r k IH]; simpl; intros Hp st.
  - exists st, None. auto.
  - contradiction.
  - destruct u; try contradiction.
    + destruct (IH Hp (apply (setSchema s) st)) as (st' & rest & -> & ? & ? & ? & ?).
      exists st', rest. auto.
    + destruct (IH Hp (apply (setMetrics m) st)) as (st' & rest & -> & ? & ? & ? & ?).
      exists st', rest. auto.
    + destruct k; try contradiction. simpl.
      eexists _, None. repeat split. congruence.
  - exists st, (Some (Fetch ep init k)). repeat split; auto;
      try (left; simpl; tauto).
    destruct Hp as [Hep _]. destruct ep; simpl; congruence.
  - exists st, (Some (ReadJson ep r k)). repeat split; auto;
      try (left; simpl; tauto).
    destruct Hp as [Hep _]. destruct ep; simpl; congruence.
Qed.

Lemma advance_submit expect p :
  submit_shape expect p ->
  forall st, exists st' rest,
    advance p st = (st', rest) /\
    match rest with
    | Some q =>
        expect = None /\ st' = st /\ waits_well q /\ awaits_predict q = true
    | None => settled_with expect st st'
    end.
Proof.
  destruct p as [a|e|u k|ep init k|ep r k]; simpl; try contradiction;
    intros Hp st.
  - destruct u; try contradiction;
      destruct k as [| |u' k'| |]; try contradiction;
      destruct u' as [| | | |[|]| |]; try contradiction;
      destruct k'; try contradiction; simpl.
    + subst expect. eexists _, None. split; [reflexivity|].
      unfold settled_with. simpl. auto.
    + destruct Hp as [-> He]. eexists _, None. split; [reflexivity|].
      unfold settled_with. simpl. auto.
  - destruct Hp as (-> & -> & Hk).
    exists st, (Some (Fetch Predict init k)). repeat split; auto;
      try (right; simpl; auto).
  - destruct Hp as (-> & -> & Hk).
    exists st, (Some (ReadJson Predict r k)). repeat split; auto;
      try (right; simpl; auto).
Qed.

Lemma filter_remove_nth {A : Type} (f : A -> bool) (l : list A) : forall i x,
  nth_error l i = Some x ->
  List.length (filter f l) =
    (if f x then 1 else 0) + List.length (filter f (remove_nth i l)).
Proof.
  induction l as [|y l IH]; intros [|i] x; simpl; try discriminate.
  - intros [= ->]. destruct (f x); reflexivity.
  - intros Hx. specialize (IH _ _ Hx).
    destruct (f y), (f x); simpl in *; lia.
Qed.

Lemma Forall_remove_nth {A : Type} (P : A -> Prop) (l : list A) : forall i,
  Forall P l -> Forall P (remove_nth i l).
Proof.
  induction l as [|y l IH]; intros [|i] H; simpl; auto;
    inversion H; subst; auto.
Qed.

Lemma handler_is_onChange form name meta c raw :
  renderField form name meta = Some c ->
  exists v, handler_of c raw = onChange name v.
Proof.
  unfold renderField.
  destruct (has_type meta "select").
  - destruct (or_else _ _); try discriminate. intros [= <-]. now eexists.
  - destruct (has_type meta "number").
    + intros [= <-]. now eexists.
    + destruct (nullish meta); try discriminate. intros [= <-]. now eexists.
Qed.

Lemma waiting_well m i p :
  page_invariant m -> nth_error (pending m) i = Some p -> waits_well p.
Proof.
  intros [Hshape _] Hn. apply nth_error_In in Hn.
  now apply (proj1 (Forall_forall _ _) Hshape).
Qed.

Lemma in_flight_loading m i p :
  page_invariant m ->
  nth_error (pending m) i = Some p ->
  awaits_predict p = true ->
  loading (state m) = true /\
  List.length (filter awaits_predict (remove_nth i (pending m))) = 0.
Proof.
  intros [_ Hcount] Hn Hp. unfold in_flight in Hcount.
  rewrite (filter_remove_nth awaits_predict _ _ _ Hn), Hp in Hcount.
  destruct (loading (state m)); split; auto; simpl in Hcount; lia.
Qed.

Lemma in_flight_other m i p :
  nth_error (pending m) i = Some p ->
  awaits_predict p = false ->
  List.length (filter awaits_predict (remove_nth i (pending m))) = in_flight m.
Proof.
  intros Hn Hp. unfold in_flight.
  now rewrite (filter_remove_nth awaits_predict _ _ _ Hn), Hp.
Qed.

(** A load sequence resumed by an answer. *)
Lemma resume_load m i p q failed :
  page_invariant m ->
  nth_error (pending m) i = Some p ->
  awaits_predict p = false ->
  load_shape failed q ->
  let m' := spawn q (state m) (remove_nth i (pending m)) in
  page_invariant m' /\
  loading (state m') = loading (state m) /\
  result (state m') = result (state m) /\
  (failed = false -> error (state m') = error (state m)).
Proof.
  intros Hinv Hn Hp Hq.
  destruct (advance_load _ _ Hq (state m)) as (st' & rest & Hadv & Hl & Hr & He & Hrest).
  unfold spawn. rewrite Hadv. cbv zeta. simpl. repeat split; auto.
  - destruct rest as [t|]; [constructor|]; try tauto;
      apply Forall_remove_nth, Hinv.
  - unfold in_flight. simpl. rewrite Hl, <- (waiting_submits _ Hinv).
    rewrite <- (in_flight_other _ _ _ Hn Hp).
    destruct rest as [t|]; simpl; auto.
    destruct Hrest as [_ ->]. reflexivity.
Qed.

(** A submit resumed by an answer. *)
Lemma resume_submit m i p q expect :
  page_invariant m ->
  nth_error (pending m) i = Some p ->
  awaits_predict p = true ->
  submit_shape expect q ->
  let m' := spawn q (state m) (remove_nth i (pending m)) in
  page_invariant m' /\
  loading (state m) = true /\
  (expect = None /\ state m' = state m \/
   settled_with expect (state m) (state m')).
Proof.
  intros Hinv Hn Hp Hq.
  destruct (in_flight_loading _ _ _ Hinv Hn Hp) as [Hl Hzero].
  destruct (advance_submit _ _ Hq (state m)) as (st' & rest & Hadv & Hpost).
  unfold spawn. rewrite Hadv. cbv zeta. simpl.
  destruct rest as [t|].
  - destruct Hpost as (-> & -> & Hw & Ht). repeat split; auto.
    + constructor; auto. apply Forall_remove_nth, Hinv.
    + unfold in_flight. simpl. rewrite Ht, Hl. simpl. now rewrite Hzero.
  - repeat split; auto.
    + apply Forall_remove_nth, Hinv.
    + unfold in_flight. simpl. destruct Hpost as [-> _]. assumption.
Qed.

Lemma step_moves m e m' :
  page_invariant m -> step m e m' ->
  page_invariant m' /\ moves e (state m) (state m').
Proof.
  intros Hinv Hstep.
  destruct Hstep as [m s name c raw Hs Hin Hc | m Hr | m Hr Hd
                    | m i ep init k a Hn | m i ep r k a Hn].
  - destruct (handler_is_onChange _ _ _ _ raw Hc) as [v Hv].
    unfold spawn. simpl. rewrite Hv. simpl. repeat split; auto; apply Hinv.
  - unfold spawn. simpl. repeat split; auto; apply Hinv.
  - unfold click_submit. rewrite Hr, Hd. simpl.
    destruct (onSubmit_waits (schema (state m)) (form (state m)) (state m))
      as (p & Hadv & Haw & Hpred & Hsh).
    unfold spawn. rewrite Hadv. simpl. repeat split; auto.
    + constructor; [split; auto | apply Hinv].
    + unfold in_flight. simpl. rewrite Hpred. simpl.
      pose proof (waiting_submits _ Hinv) as Hcount.
      unfold submit_disabled in Hd. rewrite Hd in Hcount.
      unfold in_flight in Hcount. now rewrite Hcount.
  - destruct (waiting_well _ _ _ Hinv Hn) as [_ [Hl|Hs]].
    + simpl in Hl. destruct Hl as [Hep Hk].
      assert (Hp : awaits_predict (Fetch ep init k) = false)
        by (destruct ep; simpl; congruence).
      destruct (resume_load _ _ _ _ _ Hinv Hn Hp (Hk a)) as (? & ? & ? & ?).
      split; auto. simpl. destruct ep; simpl; auto. congruence.
    + simpl in Hs. destruct Hs as (-> & _ & Hk).
      destruct (resume_submit _ _ _ _ _ Hinv Hn eq_refl (Hk a)) as (? & ? & Hpost).
      split; auto. simpl. split; auto. tauto.
  - destruct (waiting_well _ _ _ Hinv Hn) as [_ [Hl|Hs]].
    + simpl in Hl. destruct Hl as [Hep Hk].
      assert (Hp : awaits_predict (ReadJson ep r k) = false)
        by (destruct ep; simpl; congruence).
      destruct (resume_load _ _ _ _ _ Hinv Hn Hp (Hk a)) as (? & ? & ? & ?).
      split; auto. simpl. destruct ep; simpl; auto. congruence.
    + simpl in Hs. destruct Hs as (-> & _ & Hk).
      destruct (resume_submit _ _ _ _ _ Hinv Hn eq_refl (Hk a)) as (? & ? & Hpost).
      split; auto. simpl. split; auto.
Qed.

Lemma mount_invariant : page_invariant mount.
Proof.
  destruct load_waits as (p & Hadv & Haw & Hpred & Hp).
  unfold mount, spawn. rewrite Hadv. constructor; simpl.
  - constructor; [split; auto | constructor].
  - unfold in_flight. simpl. now rewrite Hpred.
Qed.

Lemma tidy_aside h e st st' :
  is_submit e = false ->
  loading st' = loading st ->
  result st' = result st \/ result st' = VNull ->
  (load_failure e = false -> error st' = error st) ->
  tidy h st -> tidy (e :: h) st'.
Proof.
  unfold tidy, submitted, quiet, balanced.
  intros Hs Hl Hr He [Hpre Hpost]. simpl. rewrite Hs, Hl. simpl. split.
  - intros S. destruct (Hpre S) as [? R]. rewrite R in Hr. split; tauto.
  - intros S Q. apply andb_true_iff in Q as [F Q].
    apply negb_true_iff in F. rewrite (He F). specialize (Hpost S Q).
    destruct (loading st), Hr as [-> | ->]; tauto.
Qed.

Lemma tidy_settling h e st st' expect :
  is_submit e = false ->
  tidy h st ->
  loading st = true ->
  st' = st \/ settled_with expect st st' ->
  tidy (e :: h) st'.
Proof.
  unfold tidy, submitted, quiet, balanced, settled_with.
  intros Hs [Hpre Hpost] Hl Hend. simpl. rewrite Hs. simpl. split.
  - intros S. destruct (Hpre S). congruence.
  - intros S Q. apply andb_true_iff in Q as [_ Q]. specialize (Hpost S Q).
    rewrite Hl in Hpost. destruct Hend as [-> | [Hl' Hend]].
    + now rewrite Hl.
    + rewrite Hl'. destruct expect; destruct Hend as [Hr He].
      * left. rewrite He. tauto.
      * right. rewrite Hr. tauto.
Qed.

Lemma tidy_step h e st st' : tidy h st -> moves e st st' -> tidy (e :: h) st'.
Proof.
  intros Ht Hm.
  destruct e as [name raw| | |i ep a|i ep a]; simpl in Hm.
  - destruct Hm as (Hl & Hr & He). apply tidy_aside with (st := st); auto.
  - destruct Hm as (Hl & Hr & He). apply tidy_aside with (st := st); auto.
  - destruct Hm as (Hl & Hr & He).
    unfold tidy, submitted, quiet, balanced. simpl. rewrite Hl, Hr, He.
    split; [discriminate | auto].
  - destruct ep; simpl in Hm.
    1, 2: destruct Hm as (Hl & Hr & He); apply tidy_aside with (st := st); auto.
    destruct Hm as [Hl Hend]. now apply (tidy_settling _ _ st _ None).
  - destruct ep; simpl in Hm.
    1, 2: destruct Hm as (Hl & Hr & He); apply tidy_aside with (st := st); auto.
    destruct Hm as [Hl Hend]. apply (tidy_settling _ _ st _ (body_of a)); auto.
    tauto.
Qed.

Lemma history_tidy h m : history h m -> page_invariant m /\ tidy h (state m).
Proof.
  induction 1 as [|h m e m' _ [Hinv Htidy] Hstep].
  - split; [apply mount_invariant|]. split; [auto | discriminate].
  - destruct (step_moves _ _ _ Hinv Hstep). split; auto.
    eapply tidy_step; eauto.
Qed.

Lemma reachable_invariant m : reachable m -> page_invariant m.
Proof. intros [h Hh]. apply (history_tidy _ _ Hh). Qed.

(** C3: on every reachable page at most one prediction request waits for
    its answer, and a press on the submit button while [loading] starts
    nothing: the page, its waiting handlers included, stays as it is, and
    no submit event takes place. *)
Theorem at_most_one_prediction_in_flight m :
  reachable m ->
  in_flight m <= 1 /\
  (loading (state m) = true ->
   click_submit m = m /\ forall m', ~ step m Submit m').
Proof.
  intros Hr. apply reachable_invariant in Hr. split.
  - rewrite (waiting_submits _ Hr). destruct (loading (state m)); lia.
  - intros Hl. split.
    + unfold click_submit, submit_disabled. rewrite Hl.
      now rewrite andb_false_r.
    + intros m' Hstep. inversion Hstep; subst.
      unfold submit_disabled in *. congruence.
Qed.

(** C4, as amended: on a page whose history has no failure of the load
    sequence after the latest submit, a state that is not loading does not
    have both an error and a result; and when the latest event is the
    arrival of a prediction, that prediction is the result and the error
    is empty. *)
Theorem error_and_result_exclusive h m :
  history h m ->
  (submitted h = true -> quiet h = true) ->
  (loading (state m) = false ->
   ~ (error (state m) <> "" /\ result (state m) <> VNull)) /\
  (forall i res h',
     h = BodyRead i Predict (inr res) :: h' ->
     loading (state m) = false /\ error (state m) = "" /\
     result (state m) = res).
Proof.
  intros Hh Hq. split.
  - destruct (history_tidy _ _ Hh) as [_ [Hpre Hpost]].
    intros Hl [He Hr]. destruct (submitted h) eqn:S.
    + specialize (Hpost eq_refl (Hq eq_refl)). unfold balanced in Hpost.
      rewrite Hl in Hpost. tauto.
    + destruct (Hpre eq_refl). contradiction.
  - intros i res h' ->.
    inversion Hh as [|h0 m0 e0 m1 Hh' Hstep]; subst.
    destruct (history_tidy _ _ Hh') as [Hinv [Hpre Hpost]].
    destruct (step_moves _ _ _ Hinv Hstep) as [_ Hm]. simpl in Hm.
    destruct Hm as [Hl [[? _] | (Hl' & Hr & He)]]; [discriminate|].
    repeat split; auto. rewrite He.
    destruct (submitted h') eqn:S.
    + unfold submitted in Hq. simpl in Hq. fold (submitted h') in Hq.
      rewrite S in Hq. specialize (Hq eq_refl).
      unfold quiet in Hq. simpl in Hq. fold (quiet h') in Hq.
      specialize (Hpost eq_refl Hq). unfold balanced in Hpost.
      rewrite Hl in Hpost. tauto.
    + destruct (Hpre eq_refl). congruence.
Qed.

(** ** Sessions *)

Lemma history_change h m name raw :
  history h m -> history (record (changed name raw m) h) (change name raw m).
Proof.
  intros Hh. unfold change, changed.
  destruct (schema (state m)) as [s|] eqn:Hs; auto.
  destruct in_dec as [Hin|]; auto.
  destruct (renderField _ _ _) as [c|] eqn:Hc; auto.
  simpl. econstructor; [eassumption|]. now apply step_change with (s := s).
Qed.

Lemma history_click h m :
  history h m -> history (record (clicked m) h) (click_submit m).
Proof.
  intros Hh. unfold clicked.
  destruct (form_rendered (state m) && negb (submit_disabled (state m)))
    eqn:E.
  - simpl. econstructor; [eassumption|].
    apply andb_true_iff in E as [Hr Hd]. apply negb_true_iff in Hd.
    now apply step_submit.
  - unfold click_submit. now rewrite E.
Qed.

Lemma history_resume h m i net :
  history h m -> history (record (resumed i net m) h) (resume i net m).
Proof.
  intros Hh. unfold resume, resumed.
  destruct (nth_error (pending m) i) as [[| | |ep init k|ep r k]|] eqn:E;
    simpl; auto; (econstructor; [eassumption|]).
  - now apply step_responded with (init := init).
  - now apply step_body_read with (r := r).
Qed.

Lemma history_play net session :
  history (snd (play net session)) (fst (play net session)).
Proof.
  unfold play.
  assert (G : forall mh, history (snd mh) (fst mh) ->
            history (snd (fold_left (fun mh a => act net a mh) session mh))
                    (fst (fold_left (fun mh a => act net a mh) session mh))).
  { induction session as [|a session IH]; intros [m h] Hh; simpl; auto.
    apply IH. simpl in Hh.
    destruct a; simpl;
      auto using history_change, history_click, history_resume. }
  apply G. simpl. constructor.
Qed.

Lemma reachable_play net session : reachable (fst (play net session)).
Proof. eexists. apply history_play. Qed.

(** ** The properties on the sample data *)

(** C1 as the spec states it fails for names that are array indices: for
    the field order [b], [1] the payload lists [1] before [b]. *)
Lemma index_names_come_first :
  names (Some Sample.numbered) = ["b"; "1"] /\
  OwnPropertyKeys (properties (build_payload (Some Sample.numbered) [])) =
    ["1"; "b"] /\
  OwnPropertyKeys (properties (build_payload (Some Sample.numbered) [])) <>
    names (Some Sample.numbered).
Proof. repeat split. discriminate. Qed.

Lemma payload_follows_feature_order_witness :
  let schema := Some Sample.fields in
  let form := [("age", FNumber (Number "34"))] in
  NoDup (names schema) /\
  (forall k, In k (names schema) -> array_index k = None) /\
  (forall k, In k (names schema) -> ~ In k object_prototype_names) /\
  OwnPropertyKeys (properties (build_payload schema form)) =
    ["age"; "category"] /\
  own "age" (properties (build_payload schema form)) =
    Some (VNum (Number "34")) /\
  own "category" (properties (build_payload schema form)) = Some VNull.
Proof.
  intros schema form.
  assert (H1 : NoDup (names schema)).
  { repeat constructor; simpl; intuition discriminate. }
  assert (H2 : forall k, In k (names schema) -> array_index k = None).
  { simpl. intros k [<-|[<-|[]]]; reflexivity. }
  assert (H3 : forall k, In k (names schema) -> ~ In k object_prototype_names).
  { simpl. intros k [<-|[<-|[]]]; intuition discriminate. }
  destruct (payload_follows_feature_order schema form H1 H2 H3) as [K V].
  split; [exact H1|]. split; [exact H2|]. split; [exact H3|].
  split; [exact K|].
  split; [apply (V "age") | apply (V "category")]; simpl; auto.
Defined.

Lemma select_edit_coercion_witness :
  let meta := meta_of Sample.fields "category" in
  let c := select_control "category" "category" (VStr "")
             (select_handler "category") [VStr "A"; VStr "B"] in
  has_type meta "select" = true /\
  renderField [] "category" meta = Some c /\
  own "category" (form (apply (handler_of c "") initial)) = Some FNull /\
  own "category" (form (apply (handler_of c "2") initial)) =
    Some (FNumber (Number "2")) /\
  own "category" (form (apply (handler_of c "B") initial)) =
    Some (FString "B").
Proof.
  intros meta c.
  assert (H1 : has_type meta "select" = true) by reflexivity.
  assert (H2 : renderField [] "category" meta = Some c) by reflexivity.
  split; [exact H1|]. split; [exact H2|]. split; [|split].
  - apply (select_edit_coercion [] "category" meta c "" initial H1 H2).
    reflexivity.
  - apply (select_edit_coercion [] "category" meta c "2" initial H1 H2).
    + discriminate.
    + reflexivity.
  - apply (select_edit_coercion [] "category" meta c "B" initial H1 H2).
    + discriminate.
    + reflexivity.
Defined.

Lemma number_edit_empty_witness :
  let meta := meta_of Sample.fields "age" in
  let c := number_input "age" "age" (VStr "") (number_handler "age")
             VUndefined VUndefined (VStr "") in
  has_type meta "number" = true /\
  renderField [] "age" meta = Some c /\
  own "age" (form (apply (handler_of c "") initial)) = Some FNull.
Proof.
  intros meta c.
  assert (H1 : has_type meta "number" = true) by reflexivity.
  assert (H2 : renderField [] "age" meta = Some c) by reflexivity.
  split; [exact H1|]. split; [exact H2|].
  apply (number_edit_empty [] "age" meta c initial H1 H2).
Defined.

Lemma number_edit_unparsed_witness :
  let meta := meta_of Sample.fields "age" in
  let c := number_input "age" "age" (VStr "") (number_handler "age")
             VUndefined VUndefined (VStr "") in
  has_type meta "number" = true /\
  renderField [] "age" meta = Some c /\
  "abc" <> "" /\
  isNaN (Number "abc") = true /\
  own "age" (form (apply (handler_of c "abc") initial)) = Some (FNumber NaN).
Proof.
  intros meta c.
  assert (H1 : has_type meta "number" = true) by reflexivity.
  assert (H2 : renderField [] "age" meta = Some c) by reflexivity.
  assert (H3 : "abc" <> "") by discriminate.
  assert (H4 : isNaN (Number "abc") = true) by reflexivity.
  split; [exact H1|]. split; [exact H2|]. split; [exact H3|].
  split; [exact H4|].
  apply (number_edit_unparsed [] "age" meta c "abc" initial H1 H2); assumption.
Defined.

(** C7 as the spec states it fails for a description of an unknown kind
    that has a placeholder: the text input shows it. *)
Lemma unknown_kind_keeps_placeholder :
  let meta := meta_of Sample.dated "dob" in
  has_type meta "number" = false /\
  has_type meta "select" = false /\
  has_type meta "text" = false /\
  renderField [] "dob" meta =
    Some (text_input "dob" "dob" (VStr "") (text_handler "dob")
            (VStr "dd/mm")) /\
  option_map placeholder_of (renderField [] "dob" meta) <> Some (VStr "").
Proof. repeat split. discriminate. Qed.

Lemma missing_or_unknown_meta_falls_back_to_text_witness :
  own "weight" [("age", VObj [("type", VStr "number")])] = None /\
  renderField [] "weight"
    (meta_of {| feature_order := Some ["age"; "weight"];
                field_meta := Some [("age", VObj [("type", VStr "number")])] |}
       "weight") =
    Some (text_input "weight" "weight" (VStr "") (text_handler "weight")
            (VStr "")) /\
  has_type (meta_of Sample.dated "dob") "select" = false /\
  has_type (meta_of Sample.dated "dob") "number" = false /\
  renderField [] "dob" (meta_of Sample.dated "dob") =
    Some (text_input "dob" "dob" (VStr "") (text_handler "dob")
            (VStr "dd/mm")).
Proof.
  split; [reflexivity|]. split; [|split; [reflexivity|split; [reflexivity|]]].
  - destruct (missing_or_unknown_meta_falls_back_to_text
                {| feature_order := Some ["age"; "weight"];
                   field_meta :=
                     Some [("age", VObj [("type", VStr "number")])] |}
                [] "weight") as [Missing _].
    apply Missing. reflexivity.
  - destruct (missing_or_unknown_meta_falls_back_to_text Sample.dated [] "dob")
      as [_ Unknown].
    apply Unknown; reflexivity.
Defined.

Lemma non_success_status_message_witness :
  let net := {| respond := fun _ => inr {| ok := false |};
                read := read (Sample.network Sample.unavailable) |} in
  ok {| ok := false |} = false /\
  respond net Schema = inr {| ok := false |} /\
  outcome net Api.getSchema initial =
    inl {| message := "Failed to fetch schema" |} /\
  outcome net Api.getMetrics initial =
    inl {| message := "Failed to fetch metrics" |} /\
  outcome net (Api.predict []) initial =
    inl {| message := "Prediction failed" |}.
Proof.
  intros net.
  destruct (non_success_status_message net initial {| ok := false |} eq_refl)
    as (S & M & P).
  split; [reflexivity|]. split; [reflexivity|]. split; [|split].
  - apply S. reflexivity.
  - apply M. reflexivity.
  - apply P. reflexivity.
Defined.

Lemma load_sequence_witness :
  let net := Sample.network Sample.unavailable in
  outcome net Api.getSchema initial = inr Sample.fields /\
  outcome net Api.getMetrics initial =
    inl {| message := "Failed to fetch metrics" |} /\
  requests (trace net load initial) = [Schema; Metrics] /\
  schema (final net load initial) = Some Sample.fields /\
  form_rendered (final net load initial) = true /\
  error (final net load initial) = "Failed to fetch metrics".
Proof.
  intros net.
  assert (H1 : outcome net Api.getSchema initial = inr Sample.fields)
    by reflexivity.
  assert (H2 : outcome net Api.getMetrics initial =
               inl {| message := "Failed to fetch metrics" |}) by reflexivity.
  destruct (load_sequence net initial) as (_ & _ & H).
  destruct (H _ _ H1 H2) as (R & S & F & E).
  split; [exact H1|]. split; [exact H2|]. split; [exact R|].
  split; [exact S|]. split; [exact F|]. now rewrite E.
Defined.

Lemma at_most_one_prediction_in_flight_witness :
  let m := fst (play (Sample.network Sample.unavailable) Sample.submitting) in
  reachable m /\
  loading (state m) = true /\
  in_flight m <= 1 /\
  click_submit m = m.
Proof.
  intros m.
  assert (R : reachable m) by apply reachable_play.
  assert (L : loading (state m) = true) by reflexivity.
  destruct (at_most_one_prediction_in_flight m R) as [F C].
  split; [exact R|]. split; [exact L|]. split; [exact F|]. apply (C L).
Defined.

(** C4 as the spec states it fails when the metrics request fails after a
    prediction has arrived: the page then is not loading and has both the
    error and the result. *)
Lemma late_load_failure_shows_error_and_result :
  let m := fst (play (Sample.network Sample.unavailable) Sample.late_failure) in
  reachable m /\
  loading (state m) = false /\
  error (state m) = "Failed to fetch metrics" /\
  result (state m) = Sample.high_risk /\
  error (state m) <> "" /\
  result (state m) <> VNull.
Proof.
  intros m. split; [apply reachable_play|].
  repeat split; discriminate.
Qed.

Lemma error_and_result_exclusive_witness :
  let session := play (Sample.network Sample.unavailable) Sample.predicted in
  history (snd session) (fst session) /\
  (submitted (snd session) = true -> quiet (snd session) = true) /\
  loading (state (fst session)) = false /\
  ~ (error (state (fst session)) <> "" /\
     result (state (fst session)) <> VNull) /\
  error (state (fst session)) = "" /\
  result (state (fst session)) = Sample.high_risk.
Proof.
  intros session.
  assert (H : history (snd session) (fst session)) by apply history_play.
  assert (Q : submitted (snd session) = true -> quiet (snd session) = true)
    by reflexivity.
  destruct (error_and_result_exclusive _ _ H Q) as [X P].
  assert (L : loading (state (fst session)) = false) by reflexivity.
  split; [exact H|]. split; [exact Q|]. split; [exact L|].
  split; [exact (X L)|].
  split; apply (P 0 Sample.high_risk (tl (snd session))); reflexivity.
Defined.

(** * Further properties *)

(** ** Keys and copies of objects *)

Lemma insert_index_In n k l e :
  In e (insert_index n k l) <-> e = (n, k) \/ In e l.
Proof.
  induction l as [|[m k'] l IH]; simpl.
  - intuition.
  - destruct (n <? m)%N; simpl; [intuition|]. rewrite IH. intuition.
Qed.

Lemma index_keys_In ks n k :
  In (n, k) (index_keys ks) <-> In k ks /\ array_index k = Some n.
Proof.
  induction ks as [|k0 ks IH]; simpl.
  - intuition.
  - destruct (array_index k0) as [n0|] eqn:E.
    + rewrite insert_index_In, IH. split.
      * intros [[= -> ->]|[? ?]]; auto.
      * intros [[->|?] Hn]; [left; congruence | auto].
    + rewrite IH. split.
      * intros [? ?]; auto.
      * intros [[->|?] Hn]; [congruence | auto].
Qed.

(** Listing the keys neither loses nor invents one. *)
Lemma OwnPropertyKeys_In {A : Type} (o : list (string * A)) k :
  In k (OwnPropertyKeys o) <-> In k (map fst o).
Proof.
  unfold OwnPropertyKeys. rewrite in_app_iff, filter_In, in_map_iff.
  unfold named. split.
  - intros [[[n k'] [<- H]] | [H _]]; auto.
    now apply index_keys_In in H.
  - intros H. destruct (array_index k) as [n|] eqn:E; auto.
    left. exists (n, k). split; auto. now apply index_keys_In.
Qed.

Lemma own_collected {A : Type} (f : list (string * A)) k ks :
  own k
    (flat_map (fun k => match own k f with Some v => [(k, v)] | None => [] end)
       ks) =
  if in_dec string_dec k ks then own k f else None.
Proof.
  induction ks as [|k0 ks IH]; simpl; [reflexivity|].
  destruct (String.eqb_spec k k0) as [->|N].
  - destruct (string_dec k0 k0); [|congruence].
    destruct (own k0 f) eqn:E; simpl.
    + now rewrite String.eqb_refl.
    + rewrite IH. now destruct in_dec.
  - destruct (string_dec k0 k); [congruence|].
    destruct (own k0 f); simpl.
    + apply String.eqb_neq in N. rewrite N. rewrite IH.
      destruct (in_dec string_dec k ks); reflexivity.
    + rewrite IH. destruct (in_dec string_dec k ks); reflexivity.
Qed.

(** A copy has the entries of the object it copies. *)
Lemma own_spread {A : Type} (f : list (string * A)) k :
  own k (spread f) = own k f.
Proof.
  unfold spread. rewrite own_collected.
  destruct in_dec as [I|N]; [reflexivity|].
  destruct (own k f) eqn:E; [|reflexivity].
  exfalso. apply N, OwnPropertyKeys_In, own_In. congruence.
Qed.

Lemma own_overwrite_other {A : Type} (o : list (string * A)) k k' v :
  k <> k' -> own k (overwrite k' v o) = own k o.
Proof.
  intros N. induction o as [|[k0 v0] o IH]; simpl; [reflexivity|].
  destruct (String.eqb_spec k' k0) as [->|N']; simpl.
  - apply String.eqb_neq in N. now rewrite N.
  - now rewrite IH.
Qed.

Lemma own_append_other {A : Type} (o : list (string * A)) k k' v :
  k <> k' -> own k (o ++ [(k', v)]) = own k o.
Proof.
  intros N. induction o as [|[k0 v0] o IH]; simpl.
  - apply String.eqb_neq in N. now rewrite N.
  - now rewrite IH.
Qed.

Lemma own_created_other {A : Type} (o : list (string * A)) k k' v :
  k <> k' -> own k (CreateDataProperty o k' v) = own k o.
Proof.
  intros N. unfold CreateDataProperty.
  destruct (own k' o); auto using own_overwrite_other, own_append_other.
Qed.

(** The entries of the form after [onChange]. *)
Lemma own_edited name v st k :
  own k (form (apply (onChange name v) st)) =
    if k =? name then Some v else own k (form st).
Proof.
  simpl. destruct (String.eqb_spec k name) as [->|N].
  - apply own_created.
  - now rewrite own_created_other, own_spread.
Qed.

(** ** Edits of any field *)

(** What the handler of a rendered field passes to [onChange]. *)
Lemma handler_value form name meta c raw :
  renderField form name meta = Some c ->
  exists v,
    handler_of c raw = onChange name v /\
    v <> FString "" /\
    (raw = "" -> v = FNull).
Proof.
  unfold renderField.
  destruct (has_type meta "select").
  - destruct (or_else _ _); try discriminate. intros [= <-].
    exists (if raw =? "" then FNull
            else if isFinite (Number raw) then FNumber (Number raw)
            else FString raw).
    split; [reflexivity|].
    destruct (String.eqb_spec raw "") as [E|N].
    + split; [discriminate | reflexivity].
    + split; [|contradiction].
      destruct (isFinite (Number raw)); [discriminate|congruence].
  - destruct (has_type meta "number").
    + intros [= <-].
      exists (if raw =? "" then FNull else FNumber (Number raw)).
      split; [reflexivity|].
      destruct (String.eqb_spec raw "") as [E|N];
        (split; [discriminate | tauto]).
    + destruct (nullish meta); try discriminate. intros [= <-].
      exists (if raw =? "" then FNull else FString raw).
      split; [reflexivity|].
      destruct (String.eqb_spec raw "") as [E|N].
      * split; [discriminate | reflexivity].
      * split; [congruence | contradiction].
Qed.

(** X1: an edit of a rendered field gives the form an entry under the
    name of the field and leaves the entry of every other name as it
    was. *)
Theorem edit_touches_one_entry form name meta c raw st :
  renderField form name meta = Some c ->
  own name (Page.form (apply (handler_of c raw) st)) <> None /\
  forall k, k <> name ->
    own k (Page.form (apply (handler_of c raw) st)) = own k (Page.form st).
Proof.
  intros Hc. destruct (handler_value _ _ _ _ raw Hc) as (v & -> & _).
  split.
  - rewrite own_edited, String.eqb_refl. discriminate.
  - intros k N. rewrite own_edited. apply String.eqb_neq in N. now rewrite N.
Qed.

(** X2: whatever the kind of a rendered field, clearing its input stores
    [null]. *)
Theorem empty_input_stores_null form name meta c st :
  renderField form name meta = Some c ->
  own name (Page.form (apply (handler_of c "") st)) = Some FNull.
Proof.
  intros Hc. destruct (handler_value _ _ _ _ "" Hc) as (v & -> & _ & E).
  rewrite own_edited, String.eqb_refl. now rewrite E.
Qed.

(** X3: a select field never stores [NaN] or an infinity: a number it
    stores is finite. *)
Theorem select_stores_finite_numbers form name meta c raw st n :
  has_type meta "select" = true ->
  renderField form name meta = Some c ->
  own name (Page.form (apply (handler_of c raw) st)) = Some (FNumber n) ->
  isFinite n = true.
Proof.
  intros Hsel Hc. unfold renderField in Hc. rewrite Hsel in Hc.
  destruct (or_else _ _); try discriminate. injection Hc as <-.
  cbn [handler_of]. unfold select_handler.
  rewrite own_edited, String.eqb_refl.
  destruct (raw =? ""); [discriminate|].
  destruct (isFinite (Number raw)) eqn:F; [|discriminate].
  now intros [= <-].
Qed.

Lemma trim_start_white l : forallb is_white l = true -> trim_start l = [].
Proof.
  induction l as [|c l IH]; simpl; [reflexivity|].
  intros H. apply andb_true_iff in H as [-> H]. auto.
Qed.

Lemma Number_blank raw :
  forallb is_white (chars raw) = true -> Number raw = S754_zero false.
Proof.
  intros H. unfold Number, trim. now rewrite (trim_start_white _ H).
Qed.

(** X4: a number field stores the number zero, not [null], for an input
    that is not empty and made of white space only. *)
Theorem blank_number_input_stores_zero form name meta c raw st :
  has_type meta "number" = true ->
  renderField form name meta = Some c ->
  raw <> "" ->
  forallb is_white (chars raw) = true ->
  own name (Page.form (apply (handler_of c raw) st)) =
    Some (FNumber (S754_zero false)).
Proof.
  intros Hnum Hc Hne Hw. unfold renderField in Hc.
  rewrite (number_is_not_select _ Hnum), Hnum in Hc. injection Hc as <-.
  cbn [handler_of]. unfold number_handler.
  rewrite own_edited, String.eqb_refl.
  apply String.eqb_neq in Hne. now rewrite Hne, (Number_blank _ Hw).
Qed.

(** X5: a text field shows what was typed: after an edit to [raw], the
    field rendered again from the new form has the value [raw]. *)
Theorem text_edit_round_trip form name meta c raw st :
  has_type meta "select" = false ->
  has_type meta "number" = false ->
  renderField form name meta = Some c ->
  exists c',
    renderField (Page.form (apply (handler_of c raw) st)) name meta = Some c' /\
    is_text_input c' = true /\
    value_of c' = VStr raw.
Proof.
  intros Hs Hn Hc. unfold renderField in *. rewrite Hs, Hn in *.
  destruct (nullish meta); [discriminate|]. injection Hc as <-.
  eexists. split; [reflexivity|]. split; [reflexivity|].
  cbn [value_of handler_of]. unfold text_handler, form_get.
  rewrite own_edited, String.eqb_refl.
  destruct (String.eqb_spec raw "") as [->|N]; reflexivity.
Qed.

(** ** Rendering the fields of the page *)

(** X6: a field of the page whose description is a select with options
    that are there but are not an array fails to render; a select whose
    options are missing renders with no option; and a field whose
    description is not a select always renders. *)
Theorem select_needs_an_array_of_options s form name :
  let meta := meta_of s name in
  (has_type meta "select" = true ->
   ToBoolean (member meta m_options) = true ->
   is_array (member meta m_options) = false ->
   renderField form name meta = None) /\
  (has_type meta "select" = true ->
   ToBoolean (member meta m_options) = false ->
   renderField form name meta =
     Some (select_control name (replaceAll name "_" " ")
             (coalesce (form_get form name) (VStr "")) (select_handler name)
             [])) /\
  (has_type meta "select" = false -> renderField form name meta <> None).
Proof.
  intros meta. pose proof (meta_of_not_nullish s name) as Hn.
  fold meta in Hn. unfold renderField. rewrite Hn.
  split; [|split].
  - intros -> T A. unfold or_else. rewrite T.
    destruct (member meta m_options); simpl in *; congruence.
  - intros -> T. unfold or_else. now rewrite T.
  - intros ->. destruct (has_type meta "number"); discriminate.
Qed.

Lemma replaceAll_length s pat by_ :
  String.length (replaceAll s pat by_) = String.length s.
Proof. induction s as [|c s IH]; simpl; congruence. Qed.

Lemma replaceAll_clean s pat by_ :
  pat <> by_ -> ~ In pat (chars (replaceAll s pat by_)).
Proof.
  intros N. induction s as [|c s IH]; simpl; [tauto|].
  intros [E|I]; [|auto].
  destruct (Ascii.eqb_spec c pat); congruence.
Qed.

Lemma replaceAll_same s pat by_ :
  ~ In pat (chars s) -> replaceAll s pat by_ = s.
Proof.
  induction s as [|c s IH]; simpl; [reflexivity|].
  intros H. destruct (Ascii.eqb_spec c pat) as [->|N]; [tauto|].
  f_equal. tauto.
Qed.

(** X7: a rendered field keeps the name as its key; its label is as long
    as the name, has no underscore, and is the name itself when the name
    has none. *)
Theorem label_of_rendered_field form name meta c :
  renderField form name meta = Some c ->
  key_of c = name /\
  String.length (label_of c) = String.length name /\
  ~ In "_"%char (chars (label_of c)) /\
  (~ In "_"%char (chars name) -> label_of c = name).
Proof.
  intros Hc.
  assert (E : key_of c = name /\ label_of c = replaceAll name "_" " ").
  { unfold renderField in Hc.
    destruct (has_type meta "select").
    - destruct (or_else _ _); try discriminate. injection Hc as <-. now split.
    - destruct (has_type meta "number").
      + injection Hc as <-. now split.
      + destruct (nullish meta); try discriminate. injection Hc as <-.
        now split. }
  destruct E as [-> ->]. repeat split.
  - apply replaceAll_length.
  - apply replaceAll_clean. discriminate.
  - apply replaceAll_same.
Qed.

(** ** The payload, for any field order *)

Lemma keys_overwrite {A : Type} (o : list (string * A)) k v :
  map fst (overwrite k v o) = map fst o.
Proof.
  induction o as [|[k0 v0] o IH]; simpl; [reflexivity|].
  destruct (k =? k0); simpl; congruence.
Qed.

Lemma keys_OrdinarySet O k v :
  map fst (properties (OrdinarySet O k v)) = map fst (properties O) \/
  own k (properties O) = None /\
  map fst (properties (OrdinarySet O k v)) = map fst (properties O) ++ [k].
Proof.
  unfold OrdinarySet. destruct (own k (properties O)) eqn:E; simpl.
  - left. apply keys_overwrite.
  - destruct ((k =? "__proto__") && negb (null_prototype O))%bool.
    + left. now destruct v.
    + right. split; [reflexivity|]. simpl. now rewrite map_app.
Qed.

Lemma own_set_same O k v :
  k <> "__proto__" -> own k (properties (OrdinarySet O k v)) = Some v.
Proof.
  intros N. unfold OrdinarySet. destruct (own k (properties O)) eqn:E; simpl.
  - apply own_overwrite_hit. congruence.
  - apply String.eqb_neq in N. rewrite N. simpl.
    rewrite own_append_miss by assumption. simpl. now rewrite String.eqb_refl.
Qed.

Lemma own_set_other O k k' v :
  k' <> k -> own k' (properties (OrdinarySet O k v)) = own k' (properties O).
Proof.
  intros N. unfold OrdinarySet. destruct (own k (properties O)) eqn:E; simpl.
  - now apply own_overwrite_other.
  - destruct ((k =? "__proto__") && negb (null_prototype O))%bool.
    + now destruct v.
    + simpl. now apply own_append_other.
Qed.

Lemma own_fill_other form ks : forall O k,
  ~ In k ks -> own k (properties (fill form ks O)) = own k (properties O).
Proof.
  induction ks as [|k0 ks IH]; intros O k Hk; simpl; [reflexivity|].
  unfold fill in *. simpl. rewrite IH by (simpl in Hk; tauto).
  apply own_set_other. simpl in Hk. intros ->. tauto.
Qed.

Lemma own_fill form ks : forall O k,
  In k ks -> k <> "__proto__" ->
  own k (properties (fill form ks O)) = Some (payload_value form k).
Proof.
  induction ks as [|k0 ks IH]; intros O k Hk Hp; simpl in *; [tauto|].
  destruct (in_dec string_dec k ks) as [I|N].
  - now apply IH.
  - destruct Hk as [->|I]; [|contradiction].
    change (own k (properties (fill form ks (OrdinarySet O k (payload_value form k))))
            = Some (payload_value form k)).
    rewrite own_fill_other by assumption. now apply own_set_same.
Qed.

Lemma keys_fill form ks : forall O k,
  In k (map fst (properties (fill form ks O))) ->
  In k (map fst (properties O)) \/ In k ks.
Proof.
  induction ks as [|k0 ks IH]; intros O k Hk; simpl in *; [auto|].
  apply IH in Hk. destruct Hk as [Hk|Hk]; [|auto].
  destruct (keys_OrdinarySet O k0 (payload_value form k0)) as [E|[_ E]];
    rewrite E in Hk; auto.
  apply in_app_iff in Hk. simpl in Hk. tauto.
Qed.

Lemma NoDup_fill form ks : forall O,
  NoDup (map fst (properties O)) ->
  NoDup (map fst (properties (fill form ks O))).
Proof.
  induction ks as [|k0 ks IH]; intros O HO; simpl; [assumption|].
  apply IH.
  destruct (keys_OrdinarySet O k0 (payload_value form k0)) as [E|[Hnone E]];
    rewrite E; [assumption|].
  apply NoDup_app; [assumption | repeat constructor; simpl; tauto |].
  intros k I [<-|[]]. apply own_In in I. congruence.
Qed.

Lemma build_payload_fill schema form :
  build_payload schema form = fill form (names schema) empty_object.
Proof. reflexivity. Qed.

Lemma payload_value_defined form k : payload_value form k <> VUndefined.
Proof.
  unfold payload_value, coalesce.
  destruct (form_get form k); simpl; discriminate.
Qed.

(** X8: whatever the field order (repeated names and array indices
    included), every name of it other than [__proto__] is a key of the
    payload, holding [form[key] ?? null], which is never [undefined]. *)
Theorem payload_never_omits_a_field schema form k :
  In k (names schema) ->
  k <> "__proto__" ->
  own k (properties (build_payload schema form)) =
    Some (payload_value form k) /\
  payload_value form k <> VUndefined.
Proof.
  intros Hk Hp. split.
  - rewrite build_payload_fill. now apply own_fill.
  - apply payload_value_defined.
Qed.

Lemma insert_index_keys n k l :
  NoDup (map snd l) -> ~ In k (map snd l) ->
  NoDup (map snd (insert_index n k l)).
Proof.
  induction l as [|[m k'] l IH]; simpl; intros Hnd Hk.
  - repeat constructor. simpl. tauto.
  - destruct (n <? m)%N; simpl.
    + constructor; [simpl; tauto | assumption].
    + inversion Hnd as [|? ? Hk' Hnd']; subst.
      constructor; [|apply IH; tauto].
      rewrite in_map_iff. intros [[n0 k0] [E I]]. simpl in E. subst k0.
      apply insert_index_In in I. destruct I as [[= _ ->]|I]; [tauto|].
      apply Hk'. apply in_map_iff. now exists (n0, k').
Qed.

Lemma index_keys_NoDup ks : NoDup ks -> NoDup (map snd (index_keys ks)).
Proof.
  induction 1 as [|k ks Hk Hnd IH]; simpl; [constructor|].
  destruct (array_index k) as [n|]; [|assumption].
  apply insert_index_keys; [assumption|].
  rewrite in_map_iff. intros [[n0 k0] [E I]]. simpl in E. subst k0.
  apply index_keys_In in I. tauto.
Qed.

Lemma OwnPropertyKeys_NoDup {A : Type} (o : list (string * A)) :
  NoDup (map fst o) -> NoDup (OwnPropertyKeys o).
Proof.
  intros H. unfold OwnPropertyKeys.
  apply NoDup_app.
  - now apply index_keys_NoDup.
  - now apply NoDup_filter.
  - intros k I F. apply filter_In in F as [_ F]. unfold named in F.
    apply in_map_iff in I as [[n k0] [E I]]. simpl in E. subst k0.
    apply index_keys_In in I as [_ I]. now rewrite I in F.
Qed.

(** X9: the keys of the payload are names of the field order, each listed
    once. *)
Theorem payload_keys_are_field_names schema form :
  NoDup (OwnPropertyKeys (properties (build_payload schema form))) /\
  forall k,
    In k (OwnPropertyKeys (properties (build_payload schema form))) ->
    In k (names schema).
Proof.
  rewrite build_payload_fill. split.
  - apply OwnPropertyKeys_NoDup, NoDup_fill. constructor.
  - intros k Hk. apply OwnPropertyKeys_In, keys_fill in Hk.
    destruct Hk as [[]|Hk]. assumption.
Qed.

Lemma payload_value_edited name v st k :
  payload_value (form (apply (onChange name v) st)) k =
    if k =? name then of_form v else payload_value (form st) k.
Proof.
  unfold payload_value, form_get. rewrite own_edited.
  destruct (k =? name); [|reflexivity]. now destruct v.
Qed.

(** X10: what [onChange] stored under a name of the field order other
    than [__proto__] is what the next payload holds under it, and under the
    other names of the field order, [__proto__] apart, the payload holds
    what it held. *)
Theorem edit_then_submit_sends_the_entry schema name v st :
  In name (names schema) ->
  name <> "__proto__" ->
  let st' := apply (onChange name v) st in
  own name (properties (build_payload schema (Page.form st'))) =
    Some (of_form v) /\
  forall k, In k (names schema) -> k <> "__proto__" -> k <> name ->
    own k (properties (build_payload schema (Page.form st'))) =
    own k (properties (build_payload schema (Page.form st))).
Proof.
  intros Hn Hp st'. rewrite !build_payload_fill. split.
  - rewrite own_fill by assumption. unfold st'.
    now rewrite payload_value_edited, String.eqb_refl.
  - intros k Hk Hkp N. rewrite !own_fill by assumption. unfold st'.
    rewrite payload_value_edited. apply String.eqb_neq in N. now rewrite N.
Qed.

(** X11: the Reset button, once the form is rendered, empties the form and
    clears the result; it leaves the schema, the metrics, the error,
    [loading] and the waiting handlers as they are, and the next payload
    holds [null] under every name that [Object.prototype] does not have. *)
Theorem reset_clears_form_and_result m :
  form_rendered (state m) = true ->
  let m' := click_reset m in
  step m Reset m' /\
  Page.form (state m') = [] /\
  result (state m') = VNull /\
  schema (state m') = schema (state m) /\
  metrics (state m') = metrics (state m) /\
  error (state m') = error (state m) /\
  loading (state m') = loading (state m) /\
  pending m' = pending m /\
  forall k, In k (names (schema (state m'))) ->
    ~ In k object_prototype_names ->
    own k (properties (build_payload (schema (state m')) (Page.form (state m')))) =
      Some VNull.
Proof.
  intros Hr m'.
  assert (E : m' = spawn onReset (state m) (pending m))
    by (unfold m', click_reset; now rewrite Hr).
  split; [rewrite E; now apply step_reset|].
  rewrite E. unfold spawn. simpl. repeat split.
  intros k Hk Hp. rewrite build_payload_fill, own_fill; auto.
  - now rewrite payload_value_entry.
  - intros ->. apply Hp. simpl. tauto.
Qed.

(** ** Calls and handlers, from start to end *)

(** X12: each call of the client makes one request, reads the body of an
    ok response only, passes on the rejection of the fetch and the failure
    of the body read as they are, and leaves the state alone. *)
Theorem client_calls net st :
  (outcome net Api.getSchema st = yields net Schema "Failed to fetch schema" /\
   requests (trace net Api.getSchema st) = [Schema] /\
   readings (trace net Api.getSchema st) = body_read net Schema /\
   final net Api.getSchema st = st) /\
  (outcome net Api.getMetrics st = yields net Metrics "Failed to fetch metrics" /\
   requests (trace net Api.getMetrics st) = [Metrics] /\
   readings (trace net Api.getMetrics st) = body_read net Metrics /\
   final net Api.getMetrics st = st) /\
  (forall payload,
   outcome net (Api.predict payload) st = yields net Predict "Prediction failed" /\
   requests (trace net (Api.predict payload) st) = [Predict] /\
   readings (trace net (Api.predict payload) st) = body_read net Predict /\
   final net (Api.predict payload) st = st).
Proof.
  unfold outcome, trace, final, yields, body_read. simpl.
  repeat split;
    match goal with
    | |- context [respond net ?ep] =>
        destruct (respond net ep) as [e|[[|]]]; simpl; try reflexivity;
        destruct (read net ep); reflexivity
    end.
Qed.

(** X13: a submit makes exactly one request, a POST to the predict
    endpoint whose JSON body has the payload under [payload], and reads the
    body of an ok response only. *)
Theorem submit_sends_one_request net schema form st :
  let t := trace net (onSubmit schema form) st in
  requested t =
    [(Predict,
      {| method := Some "POST"; cache := None;
         headers := [("Content-Type", "application/json")];
         body := Some (VObj [("payload",
                              VObj (properties (build_payload schema form)))]) |})] /\
  readings t = body_read net Predict.
Proof.
  unfold trace, body_read. simpl.
  destruct (respond net Predict) as [e|[[|]]]; simpl; auto.
  destruct (read net Predict); simpl; auto.
Qed.

(** X14: neither the load sequence nor a submit ever rejects: every
    failure is caught. *)
Theorem handlers_never_reject net schema form st :
  outcome net load st = inr tt /\
  outcome net (onSubmit schema form) st = inr tt.
Proof.
  unfold outcome. simpl. split.
  - destruct (respond net Schema) as [e|[[|]]]; simpl; auto.
    destruct (read net Schema); simpl; auto.
    destruct (respond net Metrics) as [e|[[|]]]; simpl; auto.
    destruct (read net Metrics); simpl; auto.
  - destruct (respond net Predict) as [e|[[|]]]; simpl; auto.
    destruct (read net Predict); simpl; auto.
Qed.

(** X15: a submit leaves the schema, the metrics and the form as they
    are, whatever the error and the result were before; it ends with
    [loading] cleared and either the result and no error, or a non-empty
    error and no result. *)
Theorem submit_final_state net schema form st :
  let st' := final net (onSubmit schema form) st in
  Page.schema st' = Page.schema st /\
  metrics st' = metrics st /\
  Page.form st' = Page.form st /\
  loading st' = false /\
  match yields net Predict "Prediction failed" with
  | inr res => result st' = res /\ error st' = ""
  | inl e =>
      result st' = VNull /\
      error st' = message_or e "Prediction failed" /\
      error st' <> ""
  end.
Proof.
  assert (F : forall e, message_or e "Prediction failed" <> "")
    by (intros e; now apply message_or_not_empty).
  unfold final, yields. simpl.
  destruct (respond net Predict) as [e|[[|]]]; simpl; auto 10.
  destruct (read net Predict); simpl; auto 10.
Qed.

(** X16: the load sequence never sets the form, [loading] or the result;
    when both calls succeed it stores the schema and the metrics and leaves
    the error as it was; when one fails it ends with a non-empty error. *)
Theorem load_final_state net st :
  let st' := final net load st in
  Page.form st' = Page.form st /\
  loading st' = loading st /\
  result st' = result st /\
  match yields net Schema "Failed to fetch schema",
        yields net Metrics "Failed to fetch metrics" with
  | inr s, inr mt =>
      Page.schema st' = Some s /\ metrics st' = mt /\ error st' = error st
  | inr s, inl _ =>
      Page.schema st' = Some s /\ metrics st' = metrics st /\ error st' <> ""
  | inl _, _ =>
      Page.schema st' = Page.schema st /\ metrics st' = metrics st /\
      error st' <> ""
  end.
Proof.
  assert (F : forall e, message_or e "Failed to load schema/metrics" <> "")
    by (intros e; now apply message_or_not_empty).
  unfold final, yields. simpl.
  destruct (respond net Schema) as [e|[[|]]]; simpl; auto 10.
  destruct (read net Schema); simpl; auto 10.
  destruct (respond net Metrics) as [e|[[|]]]; simpl; auto 10.
  destruct (read net Metrics); simpl; auto 10.
Qed.

(** ** The schema and the form of a reachable page *)

Lemma advance_keeps_fields p :
  keeps_fields p ->
  forall st, exists st' rest,
    advance p st = (st', rest) /\
    schema st' = schema st /\
    form st' = form st /\
    match rest with
    | Some q => keeps_fields q
    | None => True
    end.
Proof.
  induction p as [[]|e|u k IH|ep init k IH|ep r k IH]; simpl; intros Hp st.
  - exists st, None. auto.
  - exists st, None. auto.
  - destruct u; try contradiction;
      match goal with
      | |- context [advance k (apply ?u st)] =>
          destruct (IH Hp (apply u st)) as (st' & rest & -> & ? & ? & ?);
          exists st', rest; auto
      end.
  - exists st, (Some (Fetch ep init k)). auto.
  - exists st, (Some (ReadJson ep r k)). auto.
Qed.

Lemma advance_before_schema p :
  before_schema p ->
  forall st, exists st' rest,
    advance p st = (st', rest) /\
    form st' = form st /\
    (schema st' = schema st /\
     loading st' = loading st /\
     result st' = result st /\
     match rest with
     | Some q => before_schema q
     | None => True
     end \/
     (exists s, schema st' = Some s) /\
     match rest with
     | Some q => keeps_fields q
     | None => True
     end).
Proof.
  induction p as [[]|e|u k IH|ep init k IH|ep r k IH]; simpl; intros Hp st.
  - exists st, None. auto 10.
  - exists st, None. auto 10.
  - destruct u; try contradiction.
    + destruct (advance_keeps_fields k Hp (apply (setSchema s) st))
        as (st' & rest & -> & Hs & Hf & Hrest).
      exists st', rest. split; [reflexivity|]. split; [assumption|].
      right. split; [|assumption]. exists s. now rewrite Hs.
    + destruct (IH Hp (apply (setMetrics m) st)) as (st' & rest & -> & ? & ?).
      exists st', rest. auto.
    + destruct (IH Hp (apply (setError e) st)) as (st' & rest & -> & ? & ?).
      exists st', rest. auto.
  - exists st, (Some (Fetch ep init k)). simpl. auto 10.
  - exists st, (Some (ReadJson ep r k)). simpl. auto 10.
Qed.

Lemma submit_shape_keeps_fields p :
  forall expect, submit_shape expect p -> keeps_fields p.
Proof.
  induction p as [[]|e|u k IH|ep init k IH|ep r k IH]; simpl;
    intros expect Hp; auto.
  - destruct u; try contradiction;
      destruct k as [| |u' k'| |]; try contradiction;
      destruct u' as [| | | |[|]| |]; try contradiction;
      destruct k'; try contradiction; simpl; auto.
  - destruct Hp as (_ & _ & Hk). intros a. eapply IH, Hk.
  - destruct Hp as (_ & _ & Hk). intros a. eapply IH, Hk.
Qed.

Lemma load_before_schema :
  exists p, advance load initial = (initial, Some p) /\ before_schema p.
Proof.
  eexists. split; [reflexivity|]. cbn.
  split; [discriminate|]. intros [e|[[|]]]; cbn; auto.
  split; [discriminate|]. intros [e|s]; cbn; auto.
  intros [e|[[|]]]; cbn; auto.
  intros [e|mt]; cbn; auto.
Qed.

Lemma mount_well_formed : well_formed [] mount.
Proof.
  destruct load_before_schema as (p & Hadv & Hp).
  unfold well_formed, mount, spawn. rewrite Hadv. simpl.
  split; [discriminate|]. repeat split.
  right. now exists p.
Qed.

Lemma Forall_nth_error {A : Type} (P : A -> Prop) l i x :
  Forall P l -> nth_error l i = Some x -> P x.
Proof.
  intros H Hn. apply nth_error_In in Hn.
  now apply (proj1 (Forall_forall _ _) H).
Qed.

(** A waiting handler resumed by an answer of the network. *)
Lemma resume_well_formed h m i p q e :
  is_submit e = false ->
  nth_error (pending m) i = Some p ->
  (before_schema p -> before_schema q) ->
  (keeps_fields p -> keeps_fields q) ->
  well_formed h m ->
  let m' := spawn q (state m) (remove_nth i (pending m)) in
  well_formed (e :: h) m' /\
  forall s, schema (state m) = Some s -> schema (state m') = Some s.
Proof.
  intros He Hn Hb Hk [Hne Hwf]. unfold well_formed. cbv zeta.
  destruct (schema (state m)) as [s|] eqn:Hs.
  - destruct Hwf as [Hall Hkeys].
    pose proof (Hk (Forall_nth_error _ _ _ _ Hall Hn)) as Hq.
    destruct (advance_keeps_fields q Hq (state m))
      as (st' & rest & Hadv & Hs' & Hf & Hrest).
    unfold spawn. rewrite Hadv. simpl. rewrite Hs', Hf, Hs.
    split; [|intros ? [= <-]; reflexivity].
    split; [assumption|]. split; [|assumption].
    destruct rest; [constructor; [assumption|]|]; now apply Forall_remove_nth.
  - destruct Hwf as ([Hnil|(p0 & Hp0 & Hbefore)] & Hform & Hl & Hr & Hsub).
    { rewrite Hnil in Hn. destruct i; discriminate. }
    rewrite Hp0 in Hn.
    destruct i as [|i]; [|destruct i; discriminate].
    injection Hn as ->.
    destruct (advance_before_schema q (Hb Hbefore) (state m))
      as (st' & rest & Hadv & Hf & Hcase).
    unfold spawn. rewrite Hadv, Hp0. simpl. rewrite Hf.
    split; [|discriminate]. split; [assumption|].
    destruct Hcase as [(Hs' & Hl' & Hr' & Hrest)|[[s Hs'] Hrest]]; rewrite Hs'.
    + rewrite Hs, Hl', Hr'. unfold submitted in *. simpl. rewrite He.
      repeat split; auto.
      destruct rest as [t|]; [right; now exists t | now left].
    + split.
      * destruct rest; [constructor; [assumption|]|]; constructor.
      * intros k K. rewrite Hform in K. now contradiction K.
Qed.

Lemma step_well_formed h m e m' :
  well_formed h m -> step m e m' ->
  well_formed (e :: h) m' /\
  forall s, schema (state m) = Some s -> schema (state m') = Some s.
Proof.
  intros Hwf Hstep.
  destruct Hstep as [m s name c raw Hs Hin Hc | m Hr | m Hr Hd
                    | m i ep init k a Hn | m i ep r k a Hn].
  - destruct (handler_value _ _ _ _ raw Hc) as (v & Hv & Hne & _).
    destruct Hwf as [Hempty Hwf]. rewrite Hs in Hwf. destruct Hwf as [Hall Hkeys].
    unfold spawn, well_formed. simpl. rewrite Hv.
    change (advance (Ret tt) (apply (onChange name v) (state m)))
      with (apply (onChange name v) (state m), @None (prog effect unit)).
    cbn [state pending].
    assert (S : schema (apply (onChange name v) (state m)) = Some s)
      by exact Hs.
    rewrite S. split; [|intros ? ?; congruence].
    split; [|split; [assumption|]].
    + intros k. rewrite own_edited. destruct (k =? name); [congruence|auto].
    + intros k. rewrite own_edited.
      destruct (String.eqb_spec k name) as [->|N]; auto.
  - unfold form_rendered in Hr. destruct Hwf as [Hempty Hwf].
    destruct (schema (state m)) as [s|] eqn:Hs; [|discriminate].
    unfold spawn, well_formed. simpl. rewrite Hs.
    split; [|intros ? ?; congruence].
    split; [discriminate|]. split; [apply Hwf|]. intros k K. now contradiction K.
  - unfold form_rendered in Hr. destruct Hwf as [Hempty Hwf].
    destruct (schema (state m)) as [s|] eqn:Hs; [|discriminate].
    unfold click_submit, form_rendered. rewrite Hs, Hd. simpl.
    destruct (onSubmit_waits (Some s) (form (state m)) (state m))
      as (p & Hadv & _ & _ & Hsh).
    unfold spawn, well_formed. rewrite Hadv. simpl. rewrite Hs.
    split; [|intros ? ?; congruence].
    split; [assumption|]. split; [|apply Hwf].
    constructor; [|apply Hwf]. eapply submit_shape_keeps_fields, Hsh.
  - apply (resume_well_formed h m i (Fetch ep init k) (k a)); simpl; auto.
    intros [_ H]. apply H.
  - apply (resume_well_formed h m i (ReadJson ep r k) (k a)); simpl; auto.
    intros [_ H]. apply H.
Qed.

Lemma history_well_formed h m : history h m -> well_formed h m.
Proof.
  induction 1 as [|h m e m' _ IH Hstep].
  - apply mount_well_formed.
  - apply (step_well_formed _ _ _ _ IH Hstep).
Qed.

(** X17: once the schema is stored, no event changes it. *)
Theorem schema_is_stored_once m e m' s :
  reachable m ->
  step m e m' ->
  schema (state m) = Some s ->
  schema (state m') = Some s.
Proof.
  intros [h Hh] Hstep.
  apply (step_well_formed h m e m' (history_well_formed _ _ Hh) Hstep).
Qed.

(** X18: until the schema is stored the form is not rendered and nothing
    has happened to the page: the form is empty, nothing is loading, no
    result is there, no prediction is requested and no submit was
    started. *)
Theorem nothing_before_the_schema h m :
  history h m ->
  schema (state m) = None ->
  form_rendered (state m) = false /\
  Page.form (state m) = [] /\
  loading (state m) = false /\
  result (state m) = VNull /\
  in_flight m = 0 /\
  submitted h = false.
Proof.
  intros Hh Hs.
  destruct (history_well_formed _ _ Hh) as [_ Hwf].
  destruct (history_tidy _ _ Hh) as [Hinv _].
  rewrite Hs in Hwf. destruct Hwf as (_ & Hf & Hl & Hr & Hsub).
  unfold form_rendered. rewrite Hs. repeat split; auto.
  rewrite (waiting_submits _ Hinv). now rewrite Hl.
Qed.

(** X19: on a reachable page every entry of the form is under a name of
    the field order of the schema, and the payload a submit would build
    holds it, unless its name is [__proto__]. *)
Theorem form_entries_are_sent m k v :
  reachable m ->
  own k (Page.form (state m)) = Some v ->
  In k (names (schema (state m))) /\
  (k <> "__proto__" ->
   own k (properties (build_payload (schema (state m)) (Page.form (state m)))) =
     Some (of_form v)).
Proof.
  intros [h Hh] Hk.
  destruct (history_well_formed _ _ Hh) as [_ Hwf].
  assert (Hin : In k (names (schema (state m)))).
  { destruct (schema (state m)) as [s|].
    - apply Hwf. congruence.
    - destruct Hwf as (_ & Hf & _). rewrite Hf in Hk. discriminate. }
  split; [assumption|]. intros Hp.
  rewrite build_payload_fill, own_fill by assumption.
  unfold payload_value, form_get. rewrite Hk. now destruct v.
Qed.

Lemma own_set_value O k0 v k x :
  own k (properties (OrdinarySet O k0 v)) = Some x ->
  own k (properties O) = Some x \/ x = v.
Proof.
  destruct (String.eqb_spec k k0) as [->|N].
  - unfold OrdinarySet. destruct (own k0 (properties O)) eqn:E; simpl.
    + rewrite own_overwrite_hit by congruence. intros [= <-]. now right.
    + destruct ((k0 =? "__proto__") && negb (null_prototype O))%bool.
      * destruct v; simpl; rewrite E; discriminate.
      * simpl. rewrite own_append_miss by assumption. simpl.
        rewrite String.eqb_refl. intros [= <-]. now right.
  - rewrite own_set_other by assumption. now left.
Qed.

Lemma own_fill_value form ks : forall O k x,
  own k (properties (fill form ks O)) = Some x ->
  own k (properties O) = Some x \/ exists k', x = payload_value form k'.
Proof.
  induction ks as [|k0 ks IH]; intros O k x Hx; simpl in *; [auto|].
  apply IH in Hx. destruct Hx as [Hx|Hx]; [|auto].
  apply own_set_value in Hx. destruct Hx as [Hx| ->]; eauto.
Qed.

Lemma payload_value_not_empty form k :
  (forall k, own k form <> Some (FString "")) ->
  payload_value form k <> VStr "".
Proof.
  intros Hf. unfold payload_value, form_get.
  destruct (own k form) as [[| |s]|] eqn:E; try discriminate.
  - simpl. intros [= ->]. now apply (Hf k).
  - destruct (inherited_truthy_or_undefined k) as [-> | ->]; discriminate.
Qed.

(** X20: on a reachable page no entry of the form is the empty string,
    and no entry of the payload a submit would build is. *)
Theorem empty_strings_are_never_kept m :
  reachable m ->
  (forall k, own k (Page.form (state m)) <> Some (FString "")) /\
  (forall k,
     own k (properties (build_payload (schema (state m)) (Page.form (state m)))) <>
       Some (VStr "")).
Proof.
  intros [h Hh]. destruct (history_well_formed _ _ Hh) as [Hne _].
  split; [assumption|]. intros k Hk.
  rewrite build_payload_fill in Hk. apply own_fill_value in Hk.
  destruct Hk as [Hk|[k' Hk]]; [discriminate|].
  symmetry in Hk. now apply payload_value_not_empty in Hk.
Qed.

(** X21: on a reachable page [loading] is set exactly while one prediction
    request waits for its answer: the submit button then reads
    [Predicting] and is disabled; otherwise no request waits. *)
Theorem loading_while_a_prediction_waits m :
  reachable m ->
  (loading (state m) = true <-> in_flight m = 1) /\
  (loading (state m) = false <-> in_flight m = 0) /\
  (submit_caption (state m) = Predicting <-> in_flight m = 1) /\
  (submit_disabled (state m) = true <-> in_flight m = 1).
Proof.
  intros Hr. apply reachable_invariant in Hr.
  pose proof (waiting_submits _ Hr) as Hc.
  unfold submit_caption, submit_disabled.
  destruct (loading (state m)); rewrite Hc;
    repeat split; intros; try reflexivity; try discriminate.
Qed.

(** ** The colour of the risk *)

(** X22: the colour is red for the label [High Risk] only, amber for
    [Moderate Risk] only, and green for every other label. *)
Theorem risk_colours risk :
  (getRiskColor risk = "#dc2626" <-> risk = "High Risk") /\
  (getRiskColor risk = "#f59e0b" <-> risk = "Moderate Risk") /\
  (getRiskColor risk = "#16a34a" <->
   risk <> "High Risk" /\ risk <> "Moderate Risk").
Proof.
  unfold getRiskColor.
  destruct (String.eqb_spec risk "High Risk") as [->|H];
    [|destruct (String.eqb_spec risk "Moderate Risk") as [->|M]];
    repeat split; try discriminate; try tauto;
    try (intros [? ?]; congruence).
Qed.

(** ** The further properties on the sample data *)

Lemma resumed_step i net m e :
  resumed i net m = Some e -> step m e (resume i net m).
Proof.
  unfold resumed, resume.
  destruct (nth_error (pending m) i) as [[| | |ep init k|ep r k]|] eqn:E;
    try discriminate; intros [= <-].
  - now apply step_responded with (init := init).
  - now apply step_body_read with (r := r).
Qed.

Lemma edit_touches_one_entry_witness :
  let st := state (fst (play (Sample.network Sample.unavailable) Sample.chosen)) in
  let meta := meta_of Sample.fields "age" in
  let c := number_input "age" "age" (VStr "") (number_handler "age")
             VUndefined VUndefined (VStr "") in
  renderField (form st) "age" meta = Some c /\
  own "age" (form (apply (handler_of c "34") st)) <> None /\
  own "category" (form (apply (handler_of c "34") st)) = Some (FString "B").
Proof.
  intros st meta c.
  assert (H : renderField (form st) "age" meta = Some c) by reflexivity.
  destruct (edit_touches_one_entry (form st) "age" meta c "34" st H) as [A B].
  split; [exact H|]. split; [exact A|].
  rewrite (B "category"); [reflexivity | discriminate].
Defined.

Lemma empty_input_stores_null_witness :
  let meta := meta_of Sample.fields "category" in
  let c := select_control "category" "category" (VStr "")
             (select_handler "category") [VStr "A"; VStr "B"] in
  renderField [] "category" meta = Some c /\
  own "category" (form (apply (handler_of c "") initial)) = Some FNull.
Proof.
  intros meta c.
  assert (H : renderField [] "category" meta = Some c) by reflexivity.
  split; [exact H|].
  exact (empty_input_stores_null [] "category" meta c initial H).
Defined.

Lemma select_stores_finite_numbers_witness :
  let meta := meta_of Sample.fields "category" in
  let c := select_control "category" "category" (VStr "")
             (select_handler "category") [VStr "A"; VStr "B"] in
  has_type meta "select" = true /\
  renderField [] "category" meta = Some c /\
  own "category" (form (apply (handler_of c "2") initial)) =
    Some (FNumber (Number "2")) /\
  isFinite (Number "2") = true.
Proof.
  intros meta c.
  assert (H1 : has_type meta "select" = true) by reflexivity.
  assert (H2 : renderField [] "category" meta = Some c) by reflexivity.
  assert (H3 : own "category" (form (apply (handler_of c "2") initial)) =
               Some (FNumber (Number "2"))) by reflexivity.
  split; [exact H1|]. split; [exact H2|]. split; [exact H3|].
  exact (select_stores_finite_numbers [] "category" meta c "2" initial _
           H1 H2 H3).
Defined.

Lemma blank_number_input_stores_zero_witness :
  let meta := meta_of Sample.fields "age" in
  let c := number_input "age" "age" (VStr "") (number_handler "age")
             VUndefined VUndefined (VStr "") in
  has_type meta "number" = true /\
  renderField [] "age" meta = Some c /\
  " " <> "" /\
  forallb is_white (chars " ") = true /\
  own "age" (form (apply (handler_of c " ") initial)) =
    Some (FNumber (S754_zero false)).
Proof.
  intros meta c.
  assert (H1 : has_type meta "number" = true) by reflexivity.
  assert (H2 : renderField [] "age" meta = Some c) by reflexivity.
  assert (H3 : " " <> "") by discriminate.
  assert (H4 : forallb is_white (chars " ") = true) by reflexivity.
  split; [exact H1|]. split; [exact H2|]. split; [exact H3|].
  split; [exact H4|].
  exact (blank_number_input_stores_zero [] "age" meta c " " initial
           H1 H2 H3 H4).
Defined.

Lemma text_edit_round_trip_witness :
  let meta := meta_of Sample.sparse "blood_group" in
  let c := text_input "blood_group" "blood group" (VStr "")
             (text_handler "blood_group") (VStr "") in
  has_type meta "select" = false /\
  has_type meta "number" = false /\
  renderField [] "blood_group" meta = Some c /\
  exists c',
    renderField (form (apply (handler_of c "AB") initial)) "blood_group" meta =
      Some c' /\
    is_text_input c' = true /\
    value_of c' = VStr "AB".
Proof.
  intros meta c.
  assert (H1 : has_type meta "select" = false) by reflexivity.
  assert (H2 : has_type meta "number" = false) by reflexivity.
  assert (H3 : renderField [] "blood_group" meta = Some c) by reflexivity.
  split; [exact H1|]. split; [exact H2|]. split; [exact H3|].
  exact (text_edit_round_trip [] "blood_group" meta c "AB" initial H1 H2 H3).
Defined.

Lemma label_of_rendered_field_witness :
  let meta := meta_of Sample.sparse "blood_group" in
  let c := text_input "blood_group" "blood group" (VStr "")
             (text_handler "blood_group") (VStr "") in
  renderField [] "blood_group" meta = Some c /\
  key_of c = "blood_group" /\
  String.length (label_of c) = String.length "blood_group" /\
  ~ In "_"%char (chars (label_of c)).
Proof.
  intros meta c.
  assert (H : renderField [] "blood_group" meta = Some c) by reflexivity.
  destruct (label_of_rendered_field [] "blood_group" meta c H)
    as (K & L & U & _).
  split; [exact H|]. split; [exact K|]. split; [exact L | exact U].
Defined.

Lemma payload_never_omits_a_field_witness :
  In "1" (names (Some Sample.numbered)) /\
  "1" <> "__proto__" /\
  own "1" (properties (build_payload (Some Sample.numbered) [])) = Some VNull.
Proof.
  assert (H1 : In "1" (names (Some Sample.numbered))) by (simpl; auto).
  assert (H2 : "1" <> "__proto__") by discriminate.
  split; [exact H1|]. split; [exact H2|].
  exact (proj1 (payload_never_omits_a_field (Some Sample.numbered) [] "1" H1 H2)).
Defined.

Lemma edit_then_submit_sends_the_entry_witness :
  let schema := Some Sample.fields in
  let st' := apply (onChange "age" (FNumber (Number "34"))) initial in
  In "age" (names schema) /\
  "age" <> "__proto__" /\
  own "age" (properties (build_payload schema (form st'))) =
    Some (VNum (Number "34")).
Proof.
  intros schema st'.
  assert (H1 : In "age" (names schema)) by (simpl; auto).
  assert (H2 : "age" <> "__proto__") by discriminate.
  split; [exact H1|]. split; [exact H2|].
  exact (proj1 (edit_then_submit_sends_the_entry schema "age"
                  (FNumber (Number "34")) initial H1 H2)).
Defined.

Lemma reset_clears_form_and_result_witness :
  let m := fst (play (Sample.network Sample.unavailable) Sample.predicted) in
  form_rendered (state m) = true /\
  result (state m) = Sample.high_risk /\
  step m Reset (click_reset m) /\
  form (state (click_reset m)) = [] /\
  result (state (click_reset m)) = VNull.
Proof.
  intros m.
  assert (H : form_rendered (state m) = true) by reflexivity.
  destruct (reset_clears_form_and_result m H) as (S & F & R & _).
  split; [exact H|]. split; [reflexivity|]. split; [exact S|].
  split; [exact F | exact R].
Defined.

Lemma schema_is_stored_once_witness :
  let net := Sample.network Sample.unavailable in
  let m := fst (play net Sample.loaded) in
  reachable m /\
  step m (Responded 0 Metrics Sample.unavailable) (resume 0 net m) /\
  schema (state m) = Some Sample.fields /\
  schema (state (resume 0 net m)) = Some Sample.fields.
Proof.
  intros net m.
  assert (H1 : reachable m) by apply reachable_play.
  assert (H2 : step m (Responded 0 Metrics Sample.unavailable) (resume 0 net m))
    by (apply resumed_step; reflexivity).
  assert (H3 : schema (state m) = Some Sample.fields) by reflexivity.
  split; [exact H1|]. split; [exact H2|]. split; [exact H3|].
  exact (schema_is_stored_once m _ _ Sample.fields H1 H2 H3).
Defined.

Lemma nothing_before_the_schema_witness :
  let session := play (Sample.network Sample.unavailable) [Answer 0] in
  history (snd session) (fst session) /\
  schema (state (fst session)) = None /\
  form_rendered (state (fst session)) = false /\
  in_flight (fst session) = 0 /\
  submitted (snd session) = false.
Proof.
  intros session.
  assert (H1 : history (snd session) (fst session)) by apply history_play.
  assert (H2 : schema (state (fst session)) = None) by reflexivity.
  destruct (nothing_before_the_schema _ _ H1 H2) as (R & _ & _ & _ & F & S).
  split; [exact H1|]. split; [exact H2|]. split; [exact R|].
  split; [exact F | exact S].
Defined.

Lemma form_entries_are_sent_witness :
  let m := fst (play (Sample.network Sample.unavailable) Sample.chosen) in
  reachable m /\
  own "category" (form (state m)) = Some (FString "B") /\
  In "category" (names (schema (state m))) /\
  own "category"
    (properties (build_payload (schema (state m)) (form (state m)))) =
    Some (VStr "B").
Proof.
  intros m.
  assert (H1 : reachable m) by apply reachable_play.
  assert (H2 : own "category" (form (state m)) = Some (FString "B"))
    by reflexivity.
  destruct (form_entries_are_sent m "category" (FString "B") H1 H2) as [I P].
  split; [exact H1|]. split; [exact H2|]. split; [exact I|].
  apply P. discriminate.
Defined.

Lemma empty_strings_are_never_kept_witness :
  let m := fst (play (Sample.network Sample.unavailable) Sample.submitting) in
  reachable m /\
  (forall k, own k (form (state m)) <> Some (FString "")) /\
  (forall k,
     own k (properties (build_payload (schema (state m)) (form (state m)))) <>
       Some (VStr "")).
Proof.
  intros m.
  assert (H : reachable m) by apply reachable_play.
  split; [exact H|].
  exact (empty_strings_are_never_kept m H).
Defined.

Lemma loading_while_a_prediction_waits_witness :
  let m := fst (play (Sample.network Sample.unavailable) Sample.submitting) in
  reachable m /\
  loading (state m) = true /\
  in_flight m = 1 /\
  submit_caption (state m) = Predicting.
Proof.
  intros m.
  assert (H : reachable m) by apply reachable_play.
  assert (L : loading (state m) = true) by reflexivity.
  destruct (loading_while_a_prediction_waits m H) as (A & _ & _ & _).
  split; [exact H|]. split; [exact L|]. split; [exact (proj1 A L)|].
  reflexivity.
Defined.

Lemma select_needs_an_array_of_options_witness :
  renderField [] "cycle" (meta_of Sample.malformed "cycle") = None /\
  renderField [] "category" (meta_of Sample.malformed "category") =
    Some (select_control "category" "category" (VStr "")
            (select_handler "category") []) /\
  renderField [] "age" (meta_of Sample.malformed "age") <> None.
Proof.
  split; [|split].
  - destruct (select_needs_an_array_of_options Sample.malformed [] "cycle")
      as (Fails & _ & _).
    apply Fails; reflexivity.
  - destruct (select_needs_an_array_of_options Sample.malformed [] "category")
      as (_ & Empty & _).
    apply Empty; reflexivity.
  - destruct (select_needs_an_array_of_options Sample.malformed [] "age")
      as (_ & _ & Renders).
    apply Renders; reflexivity.
Defined.
